(** * StereoGlue: the nested RANSAC local optimizer and the settings

    A shallow embedding of

    - [include/settings.h]: [LocalOptimizationSettings], [RANSACSettings];
    - [include/local_optimization/nested_ransac_optimizer.h]:
      [NestedRANSACOptimizer], its constructor and the two overloads of [run]
      (multi-match, on pairs of indices; single-match, on row indices).

    [size_t] values are integers in [Z] with the wrap-around modulo [2^64]
    written where the source subtracts or multiplies.  The collaborators that
    [run] only borrows ([Estimator], [AbstractScoring], the sampler and [Score]
    with its [operator>]) live in headers of their own: they enter as interfaces
    (records of operations), so every theorem holds for all implementations. *)

From Stdlib Require Import ZArith List Bool Lia QArith Lqa.
Import ListNotations.

Set Implicit Arguments.
Open Scope Z_scope.

(** ** [size_t] arithmetic *)

(** Reduction of an unsigned 64-bit result. *)
Definition wrap (z : Z) : Z := z mod 2 ^ 64.

(** [std::vector::size()]. *)
Definition size {A : Type} (v : list A) : Z := Z.of_nat (length v).

(** ** settings.h *)

Module scoring.
(** Modelled from the spec: [scoring/types.h] (the enumeration
    [ScoringType]) is not among the sources; the spec lists its values. *)
Inductive ScoringType := MSAC | MAGSAC.
End scoring.

Module samplers.
(** Modelled from the spec: [samplers/types.h] ([SamplerType]). *)
Inductive SamplerType := Uniform | PROSAC | NeighborhoodGuided.
End samplers.

Module local_optimization.
(** Modelled from the spec: [local_optimization/types.h]
    ([LocalOptimizationType]). *)
Inductive LocalOptimizationType := None | NestedRANSAC | IRLS.
End local_optimization.

Module termination.
(** Modelled from the spec: [termination/types.h] ([TerminationType]). *)
Inductive TerminationType := RANSAC | PROSAC.
End termination.

Module settings.

Record LocalOptimizationSettings := {
  maxIterations : Z;
  sampleSizeMultiplier : Z
}.

(** The default member initializers of [LocalOptimizationSettings]. *)
Definition LocalOptimizationSettings_default : LocalOptimizationSettings :=
  {| maxIterations := 50; sampleSizeMultiplier := 7 |}.

Record RANSACSettings := {
  minIterations : Z;
  ransacMaxIterations : Z;  (* [maxIterations]; renamed, the field name is taken above *)
  coreNumber : Z;
  inlierThreshold : Q;      (* [double]; the rational its decimal literal denotes *)
  confidence : Q;           (* [double]; the rational its decimal literal denotes *)
  scoring : scoring.ScoringType;
  sampler : samplers.SamplerType;
  localOptimization : local_optimization.LocalOptimizationType;
  finalOptimization : local_optimization.LocalOptimizationType;
  terminationCriterion : termination.TerminationType;
  localOptimizationSettings : LocalOptimizationSettings;
  finalOptimizationSettings : LocalOptimizationSettings
}.

(** The default member initializers of [RANSACSettings]. *)
Definition RANSACSettings_default : RANSACSettings :=
  {| minIterations := 1000;
     ransacMaxIterations := 5000;
     coreNumber := 4;
     inlierThreshold := 1.5;
     confidence := 0.99;
     scoring := scoring.MAGSAC;
     sampler := samplers.Uniform;
     localOptimization := local_optimization.NestedRANSAC;
     finalOptimization := local_optimization.IRLS;
     terminationCriterion := termination.RANSAC;
     localOptimizationSettings := LocalOptimizationSettings_default;
     finalOptimizationSettings := LocalOptimizationSettings_default |}.

End settings.

(** ** nested_ransac_optimizer.h: the class and its constructor *)

Record NestedRANSACOptimizer := {
  maxIterations : Z;
  sampleSizeMultiplier : Z
}.

(** [NestedRANSACOptimizer() : maxIterations(50), sampleSizeMultiplier(7)]. *)
Definition NestedRANSACOptimizer_new : NestedRANSACOptimizer :=
  {| maxIterations := 50; sampleSizeMultiplier := 7 |}.

Definition setMaxIterations (o : NestedRANSACOptimizer) (maxIterations_ : Z) :=
  {| maxIterations := maxIterations_; sampleSizeMultiplier := sampleSizeMultiplier o |}.

Definition setSampleSizeMultiplier (o : NestedRANSACOptimizer) (sampleSizeMultiplier_ : Z) :=
  {| maxIterations := maxIterations o; sampleSizeMultiplier := sampleSizeMultiplier_ |}.

(** ** The loop skeleton *)

(** How a loop body leaves: it falls through or executes [continue]; it
    executes [break]; it executes [return]. *)
Inductive Control := Continue | Break | Return.

(** What one executed loop body did (one entry of the execution trace). *)
Inductive Step :=
| TooSmall                                    (* the [break] below "sample size is too small" *)
| SampleRefused                               (* [sampler.sample] returned false: [continue] *)
| EstimatorFailed (copied : bool)             (* [estimateModelNonminimal] returned false *)
| Rescored (copied : bool) (candidates : nat) (* the candidate models were rescored *).

(** Whether the body took the branch that copies all inliers into the sample
    (lines 140-144 and 259-263). *)
Definition copied_all (s : Step) : bool :=
  match s with
  | EstimatorFailed copied | Rescored copied _ => copied
  | TooSmall | SampleRefused => false
  end.

(** Whether the body used a sample that the sampler drew. *)
Definition drew (s : Step) : bool :=
  match s with
  | EstimatorFailed copied | Rescored copied _ => negb copied
  | TooSmall | SampleRefused => false
  end.

Record IterationRecord := {
  iterationIdx : Z;        (* the loop variable [iteration] *)
  poolSize : Z;            (* [estimatedInliers_.size()] at the head of the body *)
  currentSampleSize : Z;   (* the computed [currentSampleSize] *)
  step : Step
}.

Section ForLoop.
Variable S : Type.
Variable body : Z -> S -> Control * S * IterationRecord.

(** [for (size_t iteration = i; iteration < i + remaining; ++iteration) body],
    with the trace of the bodies executed. *)
Fixpoint for_loop (remaining : nat) (iteration : Z) (st : S)
  : S * list IterationRecord :=
  match remaining with
  | O => (st, [])
  | Datatypes.S r =>
      let '(c, st', rec) := body iteration st in
      match c with
      | Continue =>
          let '(final, trace) := for_loop r (iteration + 1) st' in
          (final, rec :: trace)
      | Break | Return => (st', [rec])
      end
  end.
End ForLoop.

(** ** The collaborators *)

(** Modelled from the spec: [samplers/uniform_random_sampler.h] is not among
    the sources.  The spec gives the sampler [initialize(pool_size)] and
    [sample(pool_size, k, out) -> bool]; [sample] here returns the flag, the
    indices written to [out] and the sampler's next state (its random
    generator). *)
Record UniformRandomSampler (SamplerState : Type) := {
  sampler_new : SamplerState;
  initialize : SamplerState -> Z -> SamplerState;
  sample : SamplerState -> Z -> Z -> bool * list Z * SamplerState
}.

(** Modelled from the spec: the sampler "returns false when k > pool_size". *)
Definition sampler_refuses_oversized {T : Type} (s : UniformRandomSampler T) : Prop :=
  forall st pool k, pool < k -> fst (fst (sample s st pool k)) = false.

Section Optimizer.
Context {Scalar Model Score SamplerState : Type}.

(** The value read where the source indexes outside a matrix or vector
    (undefined there). *)
Variable zero : Scalar.

(** [Score::operator>]. *)
Variable Score_gt : Score -> Score -> bool.

Variable smp : UniformRandomSampler SamplerState.

(** [DataMatrix]: a dense table, row by row. *)
Definition DataMatrix := list (list Scalar).

Definition coeff (M : DataMatrix) (r c : Z) : Scalar :=
  nth (Z.to_nat c) (nth (Z.to_nat r) M []) zero.

(** [estimator::Estimator], the part [run] calls.  [estimateModelNonminimal]
    takes the data, the sample (or [nullptr]), the sample size and the
    vector of models it extends; it returns its flag and that vector. *)
Record Estimator := {
  nonMinimalSampleSize : Z;
  sampleSize : Z;
  estimateModelNonminimal :
    DataMatrix -> option (list Z) -> Z -> list Model -> bool * list Model
}.

(** [scoring::AbstractScoring], the two overloads of [score].  The last
    argument is the content of the inlier vector passed by reference; the
    result is the score and the content the call leaves in it. *)
Record AbstractScoring := {
  score_multi :
    DataMatrix -> DataMatrix -> DataMatrix -> DataMatrix -> Model -> Estimator ->
    list (Z * Z) -> Score * list (Z * Z);
  score_single :
    DataMatrix -> Model -> Estimator -> list Z -> Score * list Z
}.

(** ** The state of [run]

    The three output parameters and the sampler.  The other locals
    ([currentScore], [currentInliers], [currentlyEstimatedModels], the sample
    buffers) are written in every loop body before they are read, so they
    are local to the body here. *)
Record State (I : Type) := {
  estimatedModel : Model;
  estimatedScore : Score;
  estimatedInliers : list I;
  samplerState : SamplerState
}.

(** What the caller reads back through the three output parameters. *)
Definition outputs {I} (st : State I) : Model * Score * list I :=
  (estimatedModel st, estimatedScore st, estimatedInliers st).

(** "Greater than or equal" in the ordering of [operator>]. *)
Definition Score_ge (a b : Score) : Prop := a = b \/ Score_gt a b = true.

Definition with_sampler {I} (st : State I) (s : SamplerState) : State I :=
  {| estimatedModel := estimatedModel st;
     estimatedScore := estimatedScore st;
     estimatedInliers := estimatedInliers st;
     samplerState := s |}.

(** Lines 131-133 and 250-252:
    [currentSampleSize = estimatedInliers_.size() - 1;
     if (currentSampleSize >= kNonMinimalSampleSize)
       currentSampleSize = kNonMinimalSampleSize;] *)
Definition sample_size (kNonMinimalSampleSize n : Z) : Z :=
  let c := wrap (n - 1) in
  if c >=? kNonMinimalSampleSize then kNonMinimalSampleSize else c.

(** [for (sampleIdx = 0; sampleIdx < k; ++sampleIdx) out[sampleIdx] = v[sampleIdx]]. *)
Definition copy_prefix {I} (d : I) (v : list I) (k : Z) : list I :=
  map (fun j => nth j v d) (seq 0 (Z.to_nat k)).

(** [for (sampleIdx = 0; sampleIdx < k; ++sampleIdx)
       out[sampleIdx] = v[currentSample[sampleIdx]]]. *)
Definition gather {I} (d : I) (v : list I) (currentSample : list Z) (k : Z) : list I :=
  map (fun j => nth (Z.to_nat (nth j currentSample 0)) v d) (seq 0 (Z.to_nat k)).

(** Lines 163-172: one row [x_src, y_src, x_dst, y_dst] per match. *)
Definition correspondences (kDataSrc_ kDataDst_ : DataMatrix)
    (currentMatches : list (Z * Z)) : DataMatrix :=
  map (fun m => [coeff kDataSrc_ (fst m) 0; coeff kDataSrc_ (fst m) 1;
                 coeff kDataDst_ (snd m) 0; coeff kDataDst_ (snd m) 1])
      currentMatches.

(** Lines 185-204 and 292-304, the body of the loop over the candidate
    models: rescore the candidate into the cleared [currentInliers]; if it
    is better, adopt it and initialize the sampler again. *)
Definition consider {I} (rescore : Model -> list I -> Score * list I)
    (st : State I) (model : Model) : State I :=
  let '(currentScore, currentInliers) := rescore model [] in
  if Score_gt currentScore (estimatedScore st) then
    {| estimatedModel := model;
       estimatedScore := currentScore;
       estimatedInliers := currentInliers;
       samplerState :=
         initialize smp (samplerState st) (wrap (size currentInliers - 1)) |}
  else st.

(** ** [run], multi-match (lines 79-207) *)
Section MultiMatch.
Variable self : NestedRANSACOptimizer.
Variables kDataSrc_ kDataDst_ kMatches_ kMatchScores_ : DataMatrix.
Variable kEstimator_ : Estimator.
Variable kScoring_ : AbstractScoring.

Definition kNonMinimalSampleSize_multi : Z :=
  wrap (sampleSizeMultiplier self * nonMinimalSampleSize kEstimator_).

Definition rescore_multi (model : Model) (inliers : list (Z * Z)) :=
  score_multi kScoring_ kDataSrc_ kDataDst_ kMatches_ kMatchScores_
              model kEstimator_ inliers.

(** One body of the inner loop (lines 130-205). *)
Definition iteration_multi (iteration : Z) (st : State (Z * Z))
  : Control * State (Z * Z) * IterationRecord :=
  let n := size (estimatedInliers st) in
  let k := sample_size kNonMinimalSampleSize_multi n in
  let record := Build_IterationRecord iteration n k in
  if k <? nonMinimalSampleSize kEstimator_ then (Break, st, record TooSmall)
  else
    let copied := k =? n in
    let '(drawn, currentMatches, s) :=
      if copied then (true, copy_prefix (0, 0) (estimatedInliers st) k, samplerState st)
      else
        let '(ok, currentSample, s) := sample smp (samplerState st) n k in
        (ok, gather (0, 0) (estimatedInliers st) currentSample k, s) in
    let st := with_sampler st s in
    if negb drawn then (Continue, st, record SampleRefused)
    else
      let '(ok, currentlyEstimatedModels) :=
        estimateModelNonminimal kEstimator_
          (correspondences kDataSrc_ kDataDst_ currentMatches)
          Datatypes.None k [estimatedModel st] in
      if negb ok then (Return, st, record (EstimatorFailed copied))
      else
        (Continue,
         fold_left (consider rescore_multi) currentlyEstimatedModels st,
         record (Rescored copied (length currentlyEstimatedModels))).

(** Lines 100-125: the state in which the loop is entered.  [kInliers_]
    and [kScore_] are parameters of the source function; its last argument
    is the content of the output vector [estimatedInliers_] at the call. *)
Definition enter_multi (kInliers_ : list (Z * Z)) (kModel_ : Model) (kScore_ : Score)
    (estimatedInliers_ : list (Z * Z)) : State (Z * Z) :=
  let '(score0, inliers0) := rescore_multi kModel_ estimatedInliers_ in
  {| estimatedModel := kModel_;
     estimatedScore := score0;
     estimatedInliers := inliers0;
     samplerState := initialize smp (sampler_new smp) (wrap (size inliers0 - 1)) |}.

Definition run_multi (kInliers_ : list (Z * Z)) (kModel_ : Model) (kScore_ : Score)
    (estimatedInliers_ : list (Z * Z)) : State (Z * Z) * list IterationRecord :=
  for_loop iteration_multi (Z.to_nat (maxIterations self)) 0
           (enter_multi kInliers_ kModel_ kScore_ estimatedInliers_).
End MultiMatch.

(** ** [run], single-match (lines 210-310) *)
Section SingleMatch.
Variable self : NestedRANSACOptimizer.
Variable kData_ : DataMatrix.
Variable kEstimator_ : Estimator.
Variable kScoring_ : AbstractScoring.

Definition kNonMinimalSampleSize_single : Z :=
  wrap (sampleSizeMultiplier self * sampleSize kEstimator_).

Definition rescore_single (model : Model) (inliers : list Z) :=
  score_single kScoring_ kData_ model kEstimator_ inliers.

(** One body of the inner loop (lines 249-305). *)
Definition iteration_single (iteration : Z) (st : State Z)
  : Control * State Z * IterationRecord :=
  let n := size (estimatedInliers st) in
  let k := sample_size kNonMinimalSampleSize_single n in
  let record := Build_IterationRecord iteration n k in
  if k <? sampleSize kEstimator_ then (Break, st, record TooSmall)
  else
    let copied := k =? n in
    let '(drawn, currentSample, s) :=
      if copied then (true, copy_prefix 0 (estimatedInliers st) k, samplerState st)
      else
        let '(ok, currentSample, s) := sample smp (samplerState st) n k in
        (ok, gather 0 (estimatedInliers st) currentSample k, s) in
    let st := with_sampler st s in
    if negb drawn then (Continue, st, record SampleRefused)
    else
      let '(ok, currentlyEstimatedModels) :=
        estimateModelNonminimal kEstimator_ kData_ (Some currentSample) k [] in
      if negb ok then (Continue, st, record (EstimatorFailed copied))
      else
        (Continue,
         fold_left (consider rescore_single) currentlyEstimatedModels st,
         record (Rescored copied (length currentlyEstimatedModels))).

(** Lines 227-244. *)
Definition enter_single (kInliers_ : list Z) (kModel_ : Model) (kScore_ : Score)
    (estimatedInliers_ : list Z) : State Z :=
  let '(score0, inliers0) := rescore_single kModel_ estimatedInliers_ in
  {| estimatedModel := kModel_;
     estimatedScore := score0;
     estimatedInliers := inliers0;
     samplerState := initialize smp (sampler_new smp) (wrap (size inliers0 - 1)) |}.

Definition run_single (kInliers_ : list Z) (kModel_ : Model) (kScore_ : Score)
    (estimatedInliers_ : list Z) : State Z * list IterationRecord :=
  for_loop iteration_single (Z.to_nat (maxIterations self)) 0
           (enter_single kInliers_ kModel_ kScore_ estimatedInliers_).
End SingleMatch.

End Optimizer.

(** ** [Score] and concrete collaborators

    The generic development above is instantiated here: with the score of the
    spec, a deterministic sampler, and an estimator and a scoring small enough
    to run.  The closed examples at the end of the file evaluate [run] on
    them. *)

Module score.
(** Modelled from the spec: [scoring/score.h] is not among the sources.
    The spec describes [Score] as "a record with an aggregate quality number
    (larger is better), an inlier count" whose ordering is to "compare by
    aggregate quality; tie-break by inlier count".  The quality, a [double]
    in the source, is a rational here. *)
Record Score := { value : Q; inlierNumber : Z }.

Definition Score_gt (a b : Score) : bool :=
  match Qcompare (value a) (value b) with
  | Gt => true
  | Eq => inlierNumber b <? inlierNumber a
  | Lt => false
  end.
End score.

Module Scenario.
Import score.

(** A sampler that draws [k] consecutive indices (modulo the pool), starting
    one further at each call; it refuses [k > pool_size], as the spec asks;
    [initialize] starts it over. *)
Definition rotating_sampler : UniformRandomSampler Z :=
  {| sampler_new := 0;
     initialize := fun _ _ => 0;
     sample := fun calls pool k =>
       if pool <? k then (false, [], calls + 1)
       else (true,
             map (fun j => (calls + Z.of_nat j) mod pool) (seq 0 (Z.to_nat k)),
             calls + 1) |}.

(** A sampler that always claims success and writes index 0 only: it breaks
    the spec's contract on purpose. *)
Definition careless_sampler : UniformRandomSampler Z :=
  {| sampler_new := 0;
     initialize := fun _ _ => 0;
     sample := fun calls pool k =>
       (true, repeat 0 (Z.to_nat k), calls + 1) |}.

(** Five points on the diagonal, [(i, i)] for [i = 0..4]. *)
Definition points : DataMatrix (Scalar := Q) :=
  map (fun i => [inject_Z i; inject_Z i]) [0; 1; 2; 3; 4].

(** The abscissa of the first point of the sample. *)
Definition first_x (data : DataMatrix (Scalar := Q)) (sample : option (list Z)) : Q :=
  match sample with
  | Datatypes.None => coeff 0%Q data 0 0
  | Some (i :: _) => coeff 0%Q data i 0
  | Some [] => 0%Q
  end.

(** An estimator with models in [Z]: it fails when the first point of the
    sample has abscissa 0 and otherwise appends that abscissa as a model. *)
Definition estimator (minimal nonMinimal : Z) : Estimator (Scalar := Q) (Model := Z) :=
  {| nonMinimalSampleSize := nonMinimal;
     sampleSize := minimal;
     estimateModelNonminimal := fun data sample n models =>
       let x := first_x data sample in
       if Qeq_bool x 0 then (false, models)
       else (true, models ++ [Qnum x]) |}.

(** The inliers, by row index, that the scoring finds for a model: none for
    a negative model, four for model 0, five for a positive model. *)
Definition inliers_of (model : Z) : list Z :=
  if model <? 0 then [] else if model =? 0 then [0; 1; 2; 3] else [0; 1; 2; 3; 4].

Definition score_of (model : Z) : Score :=
  {| value := inject_Z (if model <? 0 then 0 else 1 + model);
     inlierNumber := size (inliers_of model) |}.

(** A scoring that appends the inliers it finds to the vector it is given. *)
Definition scoring : AbstractScoring (Scalar := Q) (Model := Z) (Score := Score) :=
  {| score_multi := fun _ _ _ _ model _ inliers =>
       (score_of model, inliers ++ map (fun i => (i, i)) (inliers_of model));
     score_single := fun _ model _ inliers =>
       (score_of model, inliers ++ inliers_of model) |}.

(** An incoming score that is not the score of the model it comes with. *)
Definition stale : Score := {| value := 100; inlierNumber := 0 |}.

Definition optimizer (iterations multiplier : Z) : NestedRANSACOptimizer :=
  setSampleSizeMultiplier (setMaxIterations NestedRANSACOptimizer_new iterations)
                          multiplier.

(** The two overloads of [run] on these collaborators; the match tables are
    not read by this scoring and are left empty. *)
Definition multi (s : UniformRandomSampler Z) (o : NestedRANSACOptimizer)
    (e : Estimator) (kInliers_ : list (Z * Z)) (kModel_ : Z) (kScore_ : Score) :=
  run_multi 0%Q Score_gt s o points points [] [] e scoring
            kInliers_ kModel_ kScore_ [].

Definition single (s : UniformRandomSampler Z) (o : NestedRANSACOptimizer)
    (e : Estimator) (kInliers_ : list Z) (kModel_ : Z) (kScore_ : Score) :=
  run_single Score_gt s o points e scoring kInliers_ kModel_ kScore_ [].

End Scenario.

(** * Properties *)

Unset Implicit Arguments.

(** ** The loop skeleton *)

Section ForLoopFacts.
Variable S : Type.
Variable body : Z -> S -> Control * S * IterationRecord.

(** No more bodies are executed than the bound allows. *)
Lemma for_loop_length : forall remaining iteration st,
  (length (snd (for_loop body remaining iteration st)) <= remaining)%nat.
Proof.
  induction remaining as [|r IH]; intros iteration st; simpl; [lia|].
  destruct (body iteration st) as [[c st'] rec].
  destruct c; simpl; try lia.
  specialize (IH (iteration + 1) st').
  destruct (for_loop body r (iteration + 1) st'); simpl in *; lia.
Qed.

(** An invariant [P] of the state that every body preserves holds at the
    end, and what every body records under [P] holds of the whole trace. *)
Lemma for_loop_invariant (P : S -> Prop) (Q : IterationRecord -> Prop) :
  (forall i st c st' r, P st -> body i st = (c, st', r) -> P st' /\ Q r) ->
  forall remaining iteration st, P st ->
    P (fst (for_loop body remaining iteration st)) /\
    Forall Q (snd (for_loop body remaining iteration st)).
Proof.
  intros Hbody.
  induction remaining as [|r IH]; intros iteration st HP; simpl; [auto|].
  destruct (body iteration st) as [[c st'] rec] eqn:E.
  destruct (Hbody _ _ _ _ _ HP E) as [HP' HQ].
  destruct c; simpl; auto.
  destruct (IH (iteration + 1) st' HP') as [HPf HQf].
  destruct (for_loop body r (iteration + 1) st'); simpl in *; auto.
Qed.

(** A record made by a body that does not continue is the last one. *)
Lemma for_loop_stops (P : S -> Prop) (stop : IterationRecord -> Prop) :
  (forall i st c st' r, P st -> body i st = (c, st', r) ->
     P st' /\ (stop r -> c <> Continue)) ->
  forall remaining iteration st, P st ->
  forall l1 r l2, snd (for_loop body remaining iteration st) = l1 ++ r :: l2 ->
    stop r -> l2 = [].
Proof.
  intros Hbody.
  induction remaining as [|n IH]; intros iteration st HP l1 r l2; simpl.
  - destruct l1; discriminate.
  - destruct (body iteration st) as [[c st'] rec] eqn:E.
    destruct (Hbody _ _ _ _ _ HP E) as [HP' Hstop].
    destruct c; simpl.
    + specialize (IH (iteration + 1) st' HP').
      destruct (for_loop body n (iteration + 1) st') as [final trace]; simpl in *.
      destruct l1 as [|x l1]; simpl; intros Heq Hr; inversion Heq; subst.
      * exfalso. now apply Hstop.
      * eapply IH; eauto.
    + destruct l1 as [|x [|y l1]]; simpl; intros Heq Hr; inversion Heq; auto.
    + destruct l1 as [|x [|y l1]]; simpl; intros Heq Hr; inversion Heq; auto.
Qed.

(** If only the bodies marked [stop] leave the loop, a trace that does not
    end with such a record has one record for every iteration allowed. *)
Lemma for_loop_exhausts (P : S -> Prop) (stop : IterationRecord -> Prop) :
  (forall i st c st' r, P st -> body i st = (c, st', r) ->
     P st' /\ (c = Continue \/ stop r)) ->
  forall remaining iteration st, P st ->
    length (snd (for_loop body remaining iteration st)) = remaining \/
    exists l r, snd (for_loop body remaining iteration st) = l ++ [r] /\ stop r.
Proof.
  intros Hbody.
  induction remaining as [|n IH]; intros iteration st HP; simpl; [auto|].
  destruct (body iteration st) as [[c st'] rec] eqn:E.
  destruct (Hbody _ _ _ _ _ HP E) as [HP' Hc].
  destruct c; simpl.
  - destruct (IH (iteration + 1) st' HP') as [Hlen | (l & r & Heq & Hr)];
      destruct (for_loop body n (iteration + 1) st') as [final trace]; simpl in *.
    + left. congruence.
    + right. exists (rec :: l), r. subst. auto.
  - right. exists [], rec. destruct Hc; [discriminate | auto].
  - right. exists [], rec. destruct Hc; [discriminate | auto].
Qed.

(** The records carry the values of the loop variable, which stay below
    the bound. *)
Lemma for_loop_indices :
  (forall i st c st' r, body i st = (c, st', r) -> iterationIdx r = i) ->
  forall remaining iteration st,
    Forall (fun r => iteration <= iterationIdx r < iteration + Z.of_nat remaining)
           (snd (for_loop body remaining iteration st)).
Proof.
  intros Hidx.
  induction remaining as [|n IH]; intros iteration st; simpl; [constructor|].
  destruct (body iteration st) as [[c st'] rec] eqn:E.
  apply Hidx in E.
  destruct c; simpl; try (constructor; [lia | constructor]).
  specialize (IH (iteration + 1) st').
  destruct (for_loop body n (iteration + 1) st') as [final trace]; simpl in *.
  constructor; [lia|].
  eapply Forall_impl; [|exact IH]. simpl. intros; lia.
Qed.
End ForLoopFacts.

(** ** [size_t] arithmetic and the sample size *)

Lemma wrap_range z : 0 <= wrap z < 2 ^ 64.
Proof. unfold wrap. apply Z.mod_pos_bound. lia. Qed.

Lemma wrap_small z : 0 <= z < 2 ^ 64 -> wrap z = z.
Proof. unfold wrap. intros. now apply Z.mod_small. Qed.

Lemma wrap_le z : 0 <= z -> wrap z <= z.
Proof. unfold wrap. intros. apply Z.mod_le; lia. Qed.

(** [0 - 1] on [size_t]. *)
Lemma wrap_minus_one : wrap (0 - 1) = 2 ^ 64 - 1.
Proof. reflexivity. Qed.

Lemma size_nonneg {A} (v : list A) : 0 <= size v.
Proof. unfold size. lia. Qed.

Lemma size_nil {A} : size (@nil A) = 0.
Proof. reflexivity. Qed.

(** The computed sample size never exceeds either bound. *)
Lemma sample_size_le_cap cap n : sample_size cap n <= cap.
Proof. unfold sample_size. destruct (Z.geb_spec (wrap (n - 1)) cap); lia. Qed.

Lemma sample_size_le_wrap cap n : sample_size cap n <= wrap (n - 1).
Proof. unfold sample_size. destruct (Z.geb_spec (wrap (n - 1)) cap); lia. Qed.

(** On a non-empty vector it is the minimum the spec names. *)
Lemma sample_size_min cap n :
  1 <= n <= 2 ^ 64 -> sample_size cap n = Z.min cap (n - 1).
Proof.
  intros Hn. unfold sample_size. rewrite wrap_small by lia.
  destruct (Z.geb_spec (n - 1) cap); lia.
Qed.

(** On a non-empty vector it is below the size, whatever the size. *)
Lemma sample_size_lt_pool cap n : 1 <= n -> sample_size cap n < n.
Proof.
  intros Hn. pose proof (sample_size_le_wrap cap n).
  pose proof (wrap_le (n - 1)). lia.
Qed.

(** On the empty vector the subtraction wraps and the cap is returned. *)
Lemma sample_size_empty cap : cap < 2 ^ 64 -> sample_size cap 0 = cap.
Proof.
  intros Hc. unfold sample_size. rewrite wrap_minus_one.
  destruct (Z.geb_spec (2 ^ 64 - 1) cap); lia.
Qed.

(** It equals the size only on the empty vector with a zero cap. *)
Lemma sample_size_eq_pool cap n :
  0 <= n -> sample_size cap n = n -> n = 0 /\ sample_size cap n = 0.
Proof.
  intros Hn Heq.
  destruct (Z.eq_dec n 0) as [->|Hne]; [now rewrite Heq|].
  pose proof (sample_size_lt_pool cap n). lia.
Qed.

(** ** The optimizer *)

Section OptimizerFacts.
Context {Scalar Model Score SamplerState : Type}.
Variable zero : Scalar.
Variable Score_gt : Score -> Score -> bool.
Variable smp : UniformRandomSampler SamplerState.

#[local] Abbreviation State := (@State Model Score SamplerState).
#[local] Abbreviation candidate := (consider Score_gt smp).

Lemma with_sampler_same {I} (st : State I) : with_sampler st (samplerState st) = st.
Proof. now destruct st. Qed.

(** The candidate step either adopts the candidate, and then its score is
    greater, or leaves the state alone. *)
Lemma consider_cases {I} (rescore : Model -> list I -> Score * list I) st model :
  let cand := rescore model [] in
  (Score_gt (fst cand) (estimatedScore st) = true /\
   candidate rescore st model =
     {| estimatedModel := model;
        estimatedScore := fst cand;
        estimatedInliers := snd cand;
        samplerState :=
          initialize smp (samplerState st) (wrap (size (snd cand) - 1)) |}) \/
  (Score_gt (fst cand) (estimatedScore st) = false /\
   candidate rescore st model = st).
Proof.
  unfold consider. destruct (rescore model []) as [s inl]; simpl.
  destruct (Score_gt s (estimatedScore st)); auto.
Qed.

(** A property of the outputs kept by the candidate step is kept by the
    rescoring of any list of candidates, whatever the sampler. *)
Lemma fold_consider_invariant {I} (rescore : Model -> list I -> Score * list I)
    (P : State I -> Prop) :
  (forall st model, P st -> P (candidate rescore st model)) ->
  forall models st, P st -> P (fold_left (candidate rescore) models st).
Proof.
  intros Hstep. induction models as [|m ms IH]; simpl; auto.
Qed.

(** The cases of a loop body, read off the code by evaluating its tests. *)
Ltac body_cases H :=
  cbv zeta in H;
  repeat match type of H with
         | context [if ?b then _ else _] => destruct b eqn:?; cbv beta iota zeta in H
         | context [match ?e with pair _ _ => _ end] =>
             destruct e as [? ?] eqn:?; cbv beta iota zeta in H
         end;
  inversion H; subst; clear H; cbn [iterationIdx poolSize currentSampleSize step];
  repeat match goal with
         | E : negb _ = true |- _ => apply negb_true_iff in E
         | E : negb _ = false |- _ => apply negb_false_iff in E
         | E : (_ <? _) = true |- _ => apply Z.ltb_lt in E
         | E : (_ <? _) = false |- _ => apply Z.ltb_ge in E
         | E : (_ =? _) = true |- _ => apply Z.eqb_eq in E
         | E : (_ =? _) = false |- _ => apply Z.eqb_neq in E
         | E : context [match ?e with pair _ _ => _ end] |- _ =>
             destruct e as [? ?] eqn:?; cbv beta iota zeta in E
         | E : (_, _) = (_, _) |- _ => inversion E; subst; clear E
         | E : sample _ _ _ _ = _ |- _ => rewrite E in *; clear E
         end;
  try discriminate; cbn [fst snd].

Section MultiMatchFacts.
Variable self : NestedRANSACOptimizer.
Variables kDataSrc_ kDataDst_ kMatches_ kMatchScores_ : DataMatrix (Scalar := Scalar).
Variable kEstimator_ : Estimator (Scalar := Scalar) (Model := Model).
Variable kScoring_ : AbstractScoring (Scalar := Scalar) (Model := Model) (Score := Score).

#[local] Abbreviation body_m :=
  (iteration_multi zero Score_gt smp self kDataSrc_ kDataDst_ kMatches_
                   kMatchScores_ kEstimator_ kScoring_).
#[local] Abbreviation rescore_m :=
  (rescore_multi kDataSrc_ kDataDst_ kMatches_ kMatchScores_ kEstimator_ kScoring_).
#[local] Abbreviation cap_m := (kNonMinimalSampleSize_multi self kEstimator_).

(** Everything one body of the multi-match loop can do. *)
Lemma iteration_multi_inv i st c st' r :
  body_m i st = (c, st', r) ->
  let n := size (estimatedInliers st) in
  let k := sample_size cap_m n in
  iterationIdx r = i /\ poolSize r = n /\ currentSampleSize r = k /\
  match step r with
  | TooSmall =>
      c = Break /\ st' = st /\ k < nonMinimalSampleSize kEstimator_
  | SampleRefused =>
      c = Continue /\ nonMinimalSampleSize kEstimator_ <= k /\ k <> n /\
      fst (fst (sample smp (samplerState st) n k)) = false /\
      st' = with_sampler st (snd (sample smp (samplerState st) n k))
  | EstimatorFailed copied =>
      c = Return /\ nonMinimalSampleSize kEstimator_ <= k /\
      (if copied then k = n
       else k <> n /\ fst (fst (sample smp (samplerState st) n k)) = true) /\
      exists s, st' = with_sampler st s
  | Rescored copied candidates =>
      c = Continue /\ nonMinimalSampleSize kEstimator_ <= k /\
      (if copied then k = n
       else k <> n /\ fst (fst (sample smp (samplerState st) n k)) = true) /\
      exists s models,
        length models = candidates /\
        st' = fold_left (candidate rescore_m) models (with_sampler st s)
  end.
Proof.
  intros H. unfold iteration_multi in H. body_cases H.
  all: repeat split; eauto.
Qed.

(** The state a body leaves: the sampler has moved and some candidates,
    possibly none, have been considered. *)
Lemma iteration_multi_state i st c st' r :
  body_m i st = (c, st', r) ->
  exists s models, st' = fold_left (candidate rescore_m) models (with_sampler st s).
Proof.
  intros H. apply iteration_multi_inv in H.
  destruct H as (_ & _ & _ & H). destruct (step r).
  - destruct H as (_ & -> & _). exists (samplerState st), [].
    simpl. now rewrite with_sampler_same.
  - destruct H as (_ & _ & _ & _ & ->). eexists; exists []; reflexivity.
  - destruct H as (_ & _ & _ & s & ->). exists s, []; reflexivity.
  - destruct H as (_ & _ & _ & s & ms & _ & ->). eauto.
Qed.
End MultiMatchFacts.

Section SingleMatchFacts.
Variable self : NestedRANSACOptimizer.
Variable kData_ : DataMatrix (Scalar := Scalar).
Variable kEstimator_ : Estimator (Scalar := Scalar) (Model := Model).
Variable kScoring_ : AbstractScoring (Scalar := Scalar) (Model := Model) (Score := Score).

#[local] Abbreviation body_s :=
  (iteration_single Score_gt smp self kData_ kEstimator_ kScoring_).
#[local] Abbreviation rescore_s := (rescore_single kData_ kEstimator_ kScoring_).
#[local] Abbreviation cap_s := (kNonMinimalSampleSize_single self kEstimator_).

(** Everything one body of the single-match loop can do.  It differs from
    the multi-match one in the floor, [sampleSize], and in what follows a
    failure of the estimator: [continue]. *)
Lemma iteration_single_inv i st c st' r :
  body_s i st = (c, st', r) ->
  let n := size (estimatedInliers st) in
  let k := sample_size cap_s n in
  iterationIdx r = i /\ poolSize r = n /\ currentSampleSize r = k /\
  match step r with
  | TooSmall =>
      c = Break /\ st' = st /\ k < sampleSize kEstimator_
  | SampleRefused =>
      c = Continue /\ sampleSize kEstimator_ <= k /\ k <> n /\
      fst (fst (sample smp (samplerState st) n k)) = false /\
      st' = with_sampler st (snd (sample smp (samplerState st) n k))
  | EstimatorFailed copied =>
      c = Continue /\ sampleSize kEstimator_ <= k /\
      (if copied then k = n
       else k <> n /\ fst (fst (sample smp (samplerState st) n k)) = true) /\
      exists s, st' = with_sampler st s
  | Rescored copied candidates =>
      c = Continue /\ sampleSize kEstimator_ <= k /\
      (if copied then k = n
       else k <> n /\ fst (fst (sample smp (samplerState st) n k)) = true) /\
      exists s models,
        length models = candidates /\
        st' = fold_left (candidate rescore_s) models (with_sampler st s)
  end.
Proof.
  intros H. unfold iteration_single in H. body_cases H.
  all: repeat split; eauto.
Qed.

Lemma iteration_single_state i st c st' r :
  body_s i st = (c, st', r) ->
  exists s models, st' = fold_left (candidate rescore_s) models (with_sampler st s).
Proof.
  intros H. apply iteration_single_inv in H.
  destruct H as (_ & _ & _ & H). destruct (step r).
  - destruct H as (_ & -> & _). exists (samplerState st), [].
    simpl. now rewrite with_sampler_same.
  - destruct H as (_ & _ & _ & _ & ->). eexists; exists []; reflexivity.
  - destruct H as (_ & _ & _ & s & ->). exists s, []; reflexivity.
  - destruct H as (_ & _ & _ & s & ms & _ & ->). eauto.
Qed.
End SingleMatchFacts.

(** ** The two overloads of [run] *)

Section RunFacts.
Variable self : NestedRANSACOptimizer.
Variables kDataSrc_ kDataDst_ kMatches_ kMatchScores_ kData_ : DataMatrix (Scalar := Scalar).
Variable kEstimator_ : Estimator (Scalar := Scalar) (Model := Model).
Variable kScoring_ : AbstractScoring (Scalar := Scalar) (Model := Model) (Score := Score).
Variable kModel_ : Model.

#[local] Abbreviation runM :=
  (run_multi zero Score_gt smp self kDataSrc_ kDataDst_ kMatches_ kMatchScores_
             kEstimator_ kScoring_).
#[local] Abbreviation runS :=
  (run_single Score_gt smp self kData_ kEstimator_ kScoring_).
#[local] Abbreviation enterM :=
  (enter_multi smp kDataSrc_ kDataDst_ kMatches_ kMatchScores_ kEstimator_ kScoring_).
#[local] Abbreviation enterS := (enter_single smp kData_ kEstimator_ kScoring_).
#[local] Abbreviation bodyM :=
  (iteration_multi zero Score_gt smp self kDataSrc_ kDataDst_ kMatches_
                   kMatchScores_ kEstimator_ kScoring_).
#[local] Abbreviation bodyS :=
  (iteration_single Score_gt smp self kData_ kEstimator_ kScoring_).
#[local] Abbreviation rescoreM :=
  (rescore_multi kDataSrc_ kDataDst_ kMatches_ kMatchScores_ kEstimator_ kScoring_).
#[local] Abbreviation rescoreS := (rescore_single kData_ kEstimator_ kScoring_).
#[local] Abbreviation capM := (kNonMinimalSampleSize_multi self kEstimator_).
#[local] Abbreviation capS := (kNonMinimalSampleSize_single self kEstimator_).

(** The state in which the loop is entered holds the input model and what
    rescoring it returned. *)
Lemma enter_multi_outputs kInliers_ kScore_ out :
  outputs (enterM kInliers_ kModel_ kScore_ out) =
  (kModel_, fst (rescoreM kModel_ out), snd (rescoreM kModel_ out)).
Proof. unfold enter_multi. now destruct (rescoreM kModel_ out). Qed.

Lemma enter_single_outputs kInliers_ kScore_ out :
  outputs (enterS kInliers_ kModel_ kScore_ out) =
  (kModel_, fst (rescoreS kModel_ out), snd (rescoreS kModel_ out)).
Proof. unfold enter_single. now destruct (rescoreS kModel_ out). Qed.

(** A property of the state that neither the sampler's moves nor the
    candidate step disturb holds when [run] returns. *)
Lemma run_multi_invariant (P : State (Z * Z) -> Prop) kInliers_ kScore_ out :
  (forall st s, P st -> P (with_sampler st s)) ->
  (forall st model, P st -> P (candidate rescoreM st model)) ->
  P (enterM kInliers_ kModel_ kScore_ out) ->
  P (fst (runM kInliers_ kModel_ kScore_ out)).
Proof.
  intros Hs Hc H0. unfold run_multi.
  apply (for_loop_invariant _ bodyM P (fun _ => True)); auto.
  intros i st c st' r HP E. split; auto.
  destruct (iteration_multi_state _ _ _ _ _ _ _ _ _ _ _ _ E) as (s & ms & ->).
  apply fold_consider_invariant; auto.
Qed.

Lemma run_single_invariant (P : State Z -> Prop) kInliers_ kScore_ out :
  (forall st s, P st -> P (with_sampler st s)) ->
  (forall st model, P st -> P (candidate rescoreS st model)) ->
  P (enterS kInliers_ kModel_ kScore_ out) ->
  P (fst (runS kInliers_ kModel_ kScore_ out)).
Proof.
  intros Hs Hc H0. unfold run_single.
  apply (for_loop_invariant _ bodyS P (fun _ => True)); auto.
  intros i st c st' r HP E. split; auto.
  destruct (iteration_single_state _ _ _ _ _ _ _ _ _ E) as (s & ms & ->).
  apply fold_consider_invariant; auto.
Qed.

(** What every record of a trace satisfies, when every body establishes it. *)
Lemma run_multi_trace (Q : IterationRecord -> Prop) kInliers_ kScore_ out :
  (forall i st c st' r, bodyM i st = (c, st', r) -> Q r) ->
  Forall Q (snd (runM kInliers_ kModel_ kScore_ out)).
Proof.
  intros HQ. unfold run_multi.
  apply (for_loop_invariant _ bodyM (fun _ => True) Q); eauto.
Qed.

Lemma run_single_trace (Q : IterationRecord -> Prop) kInliers_ kScore_ out :
  (forall i st c st' r, bodyS i st = (c, st', r) -> Q r) ->
  Forall Q (snd (runS kInliers_ kModel_ kScore_ out)).
Proof.
  intros HQ. unfold run_single.
  apply (for_loop_invariant _ bodyS (fun _ => True) Q); eauto.
Qed.

(** *** Monotonicity of the score *)

Section Monotone.
Hypothesis Score_gt_trans :
  forall a b c, Score_gt a b = true -> Score_gt b c = true -> Score_gt a c = true.
Hypothesis Score_gt_irrefl : forall a, Score_gt a a = false.

Lemma Score_ge_candidate {I} (rescore : Model -> list I -> Score * list I) base st m :
  Score_ge Score_gt (estimatedScore st) base ->
  Score_ge Score_gt (estimatedScore (candidate rescore st m)) base.
Proof.
  intros Hge.
  destruct (consider_cases rescore st m) as [[Hgt ->] | [_ ->]]; auto.
  cbn [estimatedScore]. right.
  destruct Hge as [<- | Hge]; eauto.
Qed.

Lemma Score_ge_not_gt a b : Score_ge Score_gt a b -> Score_gt b a = false.
Proof.
  intros [-> | Hgt]; [apply Score_gt_irrefl|].
  destruct (Score_gt b a) eqn:E; [|reflexivity].
  rewrite <- (Score_gt_irrefl a). symmetry. now apply Score_gt_trans with b.
Qed.

Lemma Score_ge_trans a b c :
  Score_ge Score_gt a b -> Score_ge Score_gt b c -> Score_ge Score_gt a c.
Proof.
  intros [-> | Hab] [-> | Hbc]; [now left | now right | now right |].
  right. now apply Score_gt_trans with b.
Qed.

(** C1, as amended.  The score returned by [run], in either overload, is
    greater than or equal to the score obtained by rescoring the input
    model [kModel_], which is the baseline the loop starts from: the
    returned score is the baseline or greater than it, and the baseline is
    not greater than the returned score.  The incoming [kScore_] is never
    read; the returned score is greater than or equal to [kScore_] whenever
    the rescored baseline is.  ("Greater or equal" is taken in the order of
    [operator>], a strict order.) *)
Theorem run_score_not_below_rescored kInliersM kInliersS kScore_ outM outS :
  let baseM := fst (rescoreM kModel_ outM) in
  let baseS := fst (rescoreS kModel_ outS) in
  let scoreM := estimatedScore (fst (runM kInliersM kModel_ kScore_ outM)) in
  let scoreS := estimatedScore (fst (runS kInliersS kModel_ kScore_ outS)) in
  (Score_ge Score_gt scoreM baseM /\ Score_gt baseM scoreM = false /\
   (Score_ge Score_gt baseM kScore_ -> Score_ge Score_gt scoreM kScore_)) /\
  (Score_ge Score_gt scoreS baseS /\ Score_gt baseS scoreS = false /\
   (Score_ge Score_gt baseS kScore_ -> Score_ge Score_gt scoreS kScore_)).
Proof.
  cbv zeta.
  assert (HM : Score_ge Score_gt
                 (estimatedScore (fst (runM kInliersM kModel_ kScore_ outM)))
                 (fst (rescoreM kModel_ outM))).
  { apply (run_multi_invariant
             (fun st => Score_ge Score_gt (estimatedScore st)
                                 (fst (rescoreM kModel_ outM)))).
    - intros st s H; exact H.
    - intros st m H. now apply Score_ge_candidate.
    - left. pose proof (enter_multi_outputs kInliersM kScore_ outM) as E.
      unfold outputs in E. congruence. }
  assert (HS : Score_ge Score_gt
                 (estimatedScore (fst (runS kInliersS kModel_ kScore_ outS)))
                 (fst (rescoreS kModel_ outS))).
  { apply (run_single_invariant
             (fun st => Score_ge Score_gt (estimatedScore st)
                                 (fst (rescoreS kModel_ outS)))).
    - intros st s H; exact H.
    - intros st m H. now apply Score_ge_candidate.
    - left. pose proof (enter_single_outputs kInliersS kScore_ outS) as E.
      unfold outputs in E. congruence. }
  split; (split; [|split]); auto using Score_ge_not_gt.
  - intros H. exact (Score_ge_trans _ _ _ HM H).
  - intros H. exact (Score_ge_trans _ _ _ HS H).
Qed.
End Monotone.

(** *** Inlier sets too small to sample from *)

Lemma estimatedInliers_enter_multi kInliers_ kScore_ out :
  estimatedInliers (enterM kInliers_ kModel_ kScore_ out) = snd (rescoreM kModel_ out).
Proof. unfold enter_multi. now destruct (rescoreM kModel_ out). Qed.

Lemma estimatedInliers_enter_single kInliers_ kScore_ out :
  estimatedInliers (enterS kInliers_ kModel_ kScore_ out) = snd (rescoreS kModel_ out).
Proof. unfold enter_single. now destruct (rescoreS kModel_ out). Qed.

Lemma run_multi_too_small kInliers_ kScore_ out :
  1 <= size (snd (rescoreM kModel_ out)) <= nonMinimalSampleSize kEstimator_ ->
  fst (runM kInliers_ kModel_ kScore_ out) = enterM kInliers_ kModel_ kScore_ out /\
  Forall (fun r => step r = TooSmall) (snd (runM kInliers_ kModel_ kScore_ out)).
Proof.
  intros Hn. unfold run_multi.
  destruct (Z.to_nat (maxIterations self)) as [|n]; simpl; [auto|].
  destruct (bodyM 0 (enterM kInliers_ kModel_ kScore_ out)) as [[c st'] r] eqn:E.
  pose proof (iteration_multi_inv _ _ _ _ _ _ _ _ _ _ _ _ E) as H.
  cbv zeta in H. rewrite estimatedInliers_enter_multi in H.
  pose proof (sample_size_lt_pool capM _ (proj1 Hn)) as Hlt.
  destruct H as (_ & _ & _ & H). destruct (step r) eqn:Hstep.
  - destruct H as (-> & -> & _). simpl. split; auto.
  - destruct H as (_ & H & _). lia.
  - destruct H as (_ & H & _). lia.
  - destruct H as (_ & H & _). lia.
Qed.

Lemma run_single_too_small kInliers_ kScore_ out :
  1 <= size (snd (rescoreS kModel_ out)) <= sampleSize kEstimator_ ->
  fst (runS kInliers_ kModel_ kScore_ out) = enterS kInliers_ kModel_ kScore_ out /\
  Forall (fun r => step r = TooSmall) (snd (runS kInliers_ kModel_ kScore_ out)).
Proof.
  intros Hn. unfold run_single.
  destruct (Z.to_nat (maxIterations self)) as [|n]; simpl; [auto|].
  destruct (bodyS 0 (enterS kInliers_ kModel_ kScore_ out)) as [[c st'] r] eqn:E.
  pose proof (iteration_single_inv _ _ _ _ _ _ _ _ _ E) as H.
  cbv zeta in H. rewrite estimatedInliers_enter_single in H.
  pose proof (sample_size_lt_pool capS _ (proj1 Hn)) as Hlt.
  destruct H as (_ & _ & _ & H). destruct (step r) eqn:Hstep.
  - destruct H as (-> & -> & _). simpl. split; auto.
  - destruct H as (_ & H & _). lia.
  - destruct H as (_ & H & _). lia.
  - destruct H as (_ & H & _). lia.
Qed.

(** On an empty inlier set the loop is not left at once (the subtraction
    wraps), but a sampler that refuses to draw more than its pool leaves
    every body without a sample when the floor is at least 1. *)
Lemma run_multi_empty kInliers_ kScore_ out :
  snd (rescoreM kModel_ out) = [] ->
  sampler_refuses_oversized smp ->
  1 <= nonMinimalSampleSize kEstimator_ ->
  outputs (fst (runM kInliers_ kModel_ kScore_ out)) =
  outputs (enterM kInliers_ kModel_ kScore_ out).
Proof.
  intros Hempty Href Hfloor. unfold run_multi.
  apply (for_loop_invariant _ bodyM
           (fun st => outputs st = outputs (enterM kInliers_ kModel_ kScore_ out))
           (fun _ => True)); [|reflexivity].
  intros i st c st' r HP E. split; [|exact I].
  assert (Hn : size (estimatedInliers st) = 0).
  { injection HP as _ _ ->. now rewrite estimatedInliers_enter_multi, Hempty. }
  apply iteration_multi_inv in E. cbv zeta in E. rewrite Hn in E.
  destruct E as (_ & _ & _ & H).
  specialize (Href (samplerState st) 0 (sample_size capM 0)).
  destruct (step r) as [| |copied|copied cnt].
  - destruct H as (_ & -> & _). exact HP.
  - destruct H as (_ & _ & _ & _ & ->). exact HP.
  - destruct H as (_ & Hk & H & _). destruct copied; [lia|].
    destruct H as [_ Hok]. rewrite Href in Hok by lia. discriminate.
  - destruct H as (_ & Hk & H & _). destruct copied; [lia|].
    destruct H as [_ Hok]. rewrite Href in Hok by lia. discriminate.
Qed.

Lemma run_single_empty kInliers_ kScore_ out :
  snd (rescoreS kModel_ out) = [] ->
  sampler_refuses_oversized smp ->
  1 <= sampleSize kEstimator_ ->
  outputs (fst (runS kInliers_ kModel_ kScore_ out)) =
  outputs (enterS kInliers_ kModel_ kScore_ out).
Proof.
  intros Hempty Href Hfloor. unfold run_single.
  apply (for_loop_invariant _ bodyS
           (fun st => outputs st = outputs (enterS kInliers_ kModel_ kScore_ out))
           (fun _ => True)); [|reflexivity].
  intros i st c st' r HP E. split; [|exact I].
  assert (Hn : size (estimatedInliers st) = 0).
  { injection HP as _ _ ->. now rewrite estimatedInliers_enter_single, Hempty. }
  apply iteration_single_inv in E. cbv zeta in E. rewrite Hn in E.
  destruct E as (_ & _ & _ & H).
  specialize (Href (samplerState st) 0 (sample_size capS 0)).
  destruct (step r) as [| |copied|copied cnt].
  - destruct H as (_ & -> & _). exact HP.
  - destruct H as (_ & _ & _ & _ & ->). exact HP.
  - destruct H as (_ & Hk & H & _). destruct copied; [lia|].
    destruct H as [_ Hok]. rewrite Href in Hok by lia. discriminate.
  - destruct H as (_ & Hk & H & _). destruct copied; [lia|].
    destruct H as [_ Hok]. rewrite Href in Hok by lia. discriminate.
Qed.

(** C3, as amended.  In both overloads, when rescoring the input model
    leaves an inlier set too small to sample from, [run] returns the input
    model [kModel_] together with the score and the inlier set that
    rescoring [kModel_] produced, not the incoming [kScore_] and
    [kInliers_], which it never reads.  Too small means: not empty and
    with at most as many inliers as the estimator's floor
    ([nonMinimalSampleSize] in the multi-match overload, [sampleSize] in
    the single-match one), and then no body of the loop gets past the
    [break]; or empty, with a floor of at least 1 and a sampler that
    refuses to draw more than its pool. *)
Theorem run_too_small_keeps_rescored kInliersM kInliersS kScore_ outM outS :
  ((1 <= size (snd (rescoreM kModel_ outM)) <= nonMinimalSampleSize kEstimator_ ->
    outputs (fst (runM kInliersM kModel_ kScore_ outM)) =
      (kModel_, fst (rescoreM kModel_ outM), snd (rescoreM kModel_ outM)) /\
    Forall (fun r => step r = TooSmall) (snd (runM kInliersM kModel_ kScore_ outM))) /\
   (snd (rescoreM kModel_ outM) = [] ->
    sampler_refuses_oversized smp -> 1 <= nonMinimalSampleSize kEstimator_ ->
    outputs (fst (runM kInliersM kModel_ kScore_ outM)) =
      (kModel_, fst (rescoreM kModel_ outM), snd (rescoreM kModel_ outM)))) /\
  ((1 <= size (snd (rescoreS kModel_ outS)) <= sampleSize kEstimator_ ->
    outputs (fst (runS kInliersS kModel_ kScore_ outS)) =
      (kModel_, fst (rescoreS kModel_ outS), snd (rescoreS kModel_ outS)) /\
    Forall (fun r => step r = TooSmall) (snd (runS kInliersS kModel_ kScore_ outS))) /\
   (snd (rescoreS kModel_ outS) = [] ->
    sampler_refuses_oversized smp -> 1 <= sampleSize kEstimator_ ->
    outputs (fst (runS kInliersS kModel_ kScore_ outS)) =
      (kModel_, fst (rescoreS kModel_ outS), snd (rescoreS kModel_ outS)))).
Proof.
  split; split.
  - intros Hn.
    destruct (run_multi_too_small kInliersM kScore_ outM Hn) as [-> Htr].
    split; [apply enter_multi_outputs | exact Htr].
  - intros He Href Hfloor.
    rewrite (run_multi_empty kInliersM kScore_ outM He Href Hfloor).
    apply enter_multi_outputs.
  - intros Hn.
    destruct (run_single_too_small kInliersS kScore_ outS Hn) as [-> Htr].
    split; [apply enter_single_outputs | exact Htr].
  - intros He Href Hfloor.
    rewrite (run_single_empty kInliersS kScore_ outS He Href Hfloor).
    apply enter_single_outputs.
Qed.

(** *** The sample size of every iteration *)

(** What holds of the sample size on inlier sets that are not empty: every
    body computes the minimum of the cap and the number of inliers less
    one, and breaks exactly when it is below the floor. *)
Lemma run_multi_sample_sizes kInliers_ kScore_ out :
  Forall (fun r =>
            currentSampleSize r = sample_size capM (poolSize r) /\
            (1 <= poolSize r <= 2 ^ 64 ->
             currentSampleSize r = Z.min capM (poolSize r - 1)) /\
            (step r = TooSmall <->
             currentSampleSize r < nonMinimalSampleSize kEstimator_))
         (snd (runM kInliers_ kModel_ kScore_ out)).
Proof.
  apply run_multi_trace. intros i st c st' r E.
  apply iteration_multi_inv in E. cbv zeta in E.
  destruct E as (_ & -> & -> & H).
  split; [reflexivity|]. split; [apply sample_size_min|].
  destruct (step r); split; intros H'; try discriminate; try reflexivity;
    destruct H as (_ & H); try lia; destruct H as [H _]; lia.
Qed.

Lemma run_single_sample_sizes kInliers_ kScore_ out :
  Forall (fun r =>
            currentSampleSize r = sample_size capS (poolSize r) /\
            (1 <= poolSize r <= 2 ^ 64 ->
             currentSampleSize r = Z.min capS (poolSize r - 1)) /\
            (step r = TooSmall <-> currentSampleSize r < sampleSize kEstimator_))
         (snd (runS kInliers_ kModel_ kScore_ out)).
Proof.
  apply run_single_trace. intros i st c st' r E.
  apply iteration_single_inv in E. cbv zeta in E.
  destruct E as (_ & -> & -> & H).
  split; [reflexivity|]. split; [apply sample_size_min|].
  destruct (step r); split; intros H'; try discriminate; try reflexivity;
    destruct H as (_ & H); try lia; destruct H as [H _]; lia.
Qed.

(** The body that breaks is the last one. *)
Lemma run_multi_break_is_last kInliers_ kScore_ out l1 r l2 :
  snd (runM kInliers_ kModel_ kScore_ out) = l1 ++ r :: l2 ->
  step r = TooSmall -> l2 = [].
Proof.
  unfold run_multi.
  apply (for_loop_stops _ bodyM (fun _ => True) (fun r => step r = TooSmall)); auto.
  intros i st c st' r' _ E. split; auto. intros Hs.
  apply iteration_multi_inv in E. destruct E as (_ & _ & _ & H).
  rewrite Hs in H. destruct H as (-> & _). discriminate.
Qed.

Lemma run_single_break_is_last kInliers_ kScore_ out l1 r l2 :
  snd (runS kInliers_ kModel_ kScore_ out) = l1 ++ r :: l2 ->
  step r = TooSmall -> l2 = [].
Proof.
  unfold run_single.
  apply (for_loop_stops _ bodyS (fun _ => True) (fun r => step r = TooSmall)); auto.
  intros i st c st' r' _ E. split; auto. intros Hs.
  apply iteration_single_inv in E. destruct E as (_ & _ & _ & H).
  rewrite Hs in H. destruct H as (-> & _). discriminate.
Qed.

(** *** Failures of the estimator *)

(** In the multi-match overload the body in which the estimator fails is
    the last one: the function returns. *)
Lemma run_multi_failure_is_last kInliers_ kScore_ out l1 r l2 copied :
  snd (runM kInliers_ kModel_ kScore_ out) = l1 ++ r :: l2 ->
  step r = EstimatorFailed copied -> l2 = [].
Proof.
  unfold run_multi. intros Htr Hs.
  apply (for_loop_stops _ bodyM (fun _ => True)
           (fun r => exists b, step r = EstimatorFailed b)) in Htr; eauto.
  intros i st c st' r' _ E. split; auto. intros [b Hb].
  apply iteration_multi_inv in E. destruct E as (_ & _ & _ & H).
  rewrite Hb in H. destruct H as (-> & _). discriminate.
Qed.

(** In the single-match overload only the [break] ends the loop early:
    after a failure of the estimator the next iteration runs. *)
Lemma run_single_only_break_ends kInliers_ kScore_ out :
  length (snd (runS kInliers_ kModel_ kScore_ out)) = Z.to_nat (maxIterations self) \/
  exists l r, snd (runS kInliers_ kModel_ kScore_ out) = l ++ [r] /\ step r = TooSmall.
Proof.
  unfold run_single.
  apply (for_loop_exhausts _ bodyS (fun _ => True) (fun r => step r = TooSmall)); auto.
  intros i st c st' r _ E. split; auto.
  apply iteration_single_inv in E. destruct E as (_ & _ & _ & H).
  destruct (step r); [now right | left; apply H ..].
Qed.

(** *** Adoption of a candidate *)









(** *** The number of iterations *)

(** C7.  In both overloads [run] executes at most [maxIterations] bodies of
    the inner loop, the loop variable of each below [maxIterations], and
    returns: the model of the loop is a total function.  With the
    constructor's value the bound is 50. *)
Theorem run_iterations_bounded kInliersM kInliersS kScore_ outM outS :
  ((length (snd (runM kInliersM kModel_ kScore_ outM)) <=
      Z.to_nat (maxIterations self))%nat /\
   Forall (fun r => 0 <= iterationIdx r < maxIterations self)
          (snd (runM kInliersM kModel_ kScore_ outM))) /\
  ((length (snd (runS kInliersS kModel_ kScore_ outS)) <=
      Z.to_nat (maxIterations self))%nat /\
   Forall (fun r => 0 <= iterationIdx r < maxIterations self)
          (snd (runS kInliersS kModel_ kScore_ outS))) /\
  Z.to_nat (maxIterations NestedRANSACOptimizer_new) = 50%nat.
Proof.
  split; [|split]; [split | split | reflexivity].
  - apply for_loop_length.
  - unfold run_multi. eapply Forall_impl;
      [| apply for_loop_indices; intros i st c st' r E;
         now apply iteration_multi_inv in E].
    simpl. intros r H. lia.
  - apply for_loop_length.
  - unfold run_single. eapply Forall_impl;
      [| apply for_loop_indices; intros i st c st' r E;
         now apply iteration_single_inv in E].
    simpl. intros r H. lia.
Qed.

(** *** The incoming score *)

(** C8.  Two calls of [run] that differ in the incoming score [kScore_]
    only return the same model, score and inlier set (and go through the
    same iterations), in both overloads. *)
Theorem run_independent_of_incoming_score kInliersM kInliersS kScore1 kScore2 outM outS :
  run_multi zero Score_gt smp self kDataSrc_ kDataDst_ kMatches_ kMatchScores_
            kEstimator_ kScoring_ kInliersM kModel_ kScore1 outM
  = run_multi zero Score_gt smp self kDataSrc_ kDataDst_ kMatches_ kMatchScores_
              kEstimator_ kScoring_ kInliersM kModel_ kScore2 outM /\
  run_single Score_gt smp self kData_ kEstimator_ kScoring_ kInliersS kModel_ kScore1 outS
  = run_single Score_gt smp self kData_ kEstimator_ kScoring_ kInliersS kModel_ kScore2 outS.
Proof. split; reflexivity. Qed.

(** *** The empty inlier set *)

Lemma capM_range : 0 <= capM < 2 ^ 64.
Proof. apply wrap_range. Qed.

Lemma capS_range : 0 <= capS < 2 ^ 64.
Proof. apply wrap_range. Qed.

(** C9, as amended.  When rescoring the input model leaves no inlier, in both
    overloads [estimatedInliers_.size() - 1] is [2^64 - 1]; the sampler is
    initialized with that pool size; and the sample size computed by the
    first body of the loop is [kNonMinimalSampleSize]: the multiplier times
    [nonMinimalSampleSize()] in the multi-match overload, the multiplier
    times [sampleSize()] in the single-match one, reduced to [size_t] and
    equal to the plain product when that fits.  It is at least the
    estimator's floor when the multiplier is at least 1 and the product
    fits, and whenever it is at least the floor the first body does not
    break. *)
Theorem empty_inliers_wrap_around kInliersM kInliersS kScore_ outM outS :
  (snd (rescoreM kModel_ outM) = [] ->
   wrap (size (estimatedInliers (enterM kInliersM kModel_ kScore_ outM)) - 1)
     = 2 ^ 64 - 1 /\
   samplerState (enterM kInliersM kModel_ kScore_ outM)
     = initialize smp (sampler_new smp) (2 ^ 64 - 1) /\
   sample_size capM (size (estimatedInliers (enterM kInliersM kModel_ kScore_ outM)))
     = capM /\
   (0 <= sampleSizeMultiplier self * nonMinimalSampleSize kEstimator_ < 2 ^ 64 ->
    capM = sampleSizeMultiplier self * nonMinimalSampleSize kEstimator_) /\
   (1 <= sampleSizeMultiplier self -> 0 <= nonMinimalSampleSize kEstimator_ ->
    sampleSizeMultiplier self * nonMinimalSampleSize kEstimator_ < 2 ^ 64 ->
    nonMinimalSampleSize kEstimator_ <= capM) /\
   (1 <= maxIterations self ->
    exists r rest,
      snd (runM kInliersM kModel_ kScore_ outM) = r :: rest /\
      poolSize r = 0 /\ currentSampleSize r = capM /\
      (nonMinimalSampleSize kEstimator_ <= capM -> step r <> TooSmall))) /\
  (snd (rescoreS kModel_ outS) = [] ->
   wrap (size (estimatedInliers (enterS kInliersS kModel_ kScore_ outS)) - 1)
     = 2 ^ 64 - 1 /\
   samplerState (enterS kInliersS kModel_ kScore_ outS)
     = initialize smp (sampler_new smp) (2 ^ 64 - 1) /\
   sample_size capS (size (estimatedInliers (enterS kInliersS kModel_ kScore_ outS)))
     = capS /\
   (0 <= sampleSizeMultiplier self * sampleSize kEstimator_ < 2 ^ 64 ->
    capS = sampleSizeMultiplier self * sampleSize kEstimator_) /\
   (1 <= sampleSizeMultiplier self -> 0 <= sampleSize kEstimator_ ->
    sampleSizeMultiplier self * sampleSize kEstimator_ < 2 ^ 64 ->
    sampleSize kEstimator_ <= capS) /\
   (1 <= maxIterations self ->
    exists r rest,
      snd (runS kInliersS kModel_ kScore_ outS) = r :: rest /\
      poolSize r = 0 /\ currentSampleSize r = capS /\
      (sampleSize kEstimator_ <= capS -> step r <> TooSmall))).
Proof.
  split; intros Hempty.
  - pose proof capM_range as Hcap.
    rewrite estimatedInliers_enter_multi, Hempty, size_nil.
    split; [reflexivity|]. split.
    { unfold enter_multi. destruct (rescoreM kModel_ outM) as [s0 inl0].
      simpl in Hempty. subst inl0. reflexivity. }
    split; [apply sample_size_empty; lia|].
    split; [intros Hprod; now apply wrap_small|].
    split; [intros Hm Hf Hprod; unfold kNonMinimalSampleSize_multi;
            rewrite wrap_small; nia|].
    intros Hmax. unfold run_multi.
    destruct (Z.to_nat (maxIterations self)) as [|n] eqn:En; [lia|]. simpl.
    destruct (bodyM 0 (enterM kInliersM kModel_ kScore_ outM)) as [[c st'] r] eqn:E.
    apply iteration_multi_inv in E. cbv zeta in E.
    rewrite estimatedInliers_enter_multi, Hempty in E.
    change (size (@nil (Z * Z))) with 0 in E.
    rewrite sample_size_empty in E by lia.
    destruct E as (_ & Hp & Hk & H).
    assert (Hfloor : nonMinimalSampleSize kEstimator_ <= capM -> step r <> TooSmall).
    { intros Hle Hs. rewrite Hs in H. lia. }
    destruct c.
    + destruct (for_loop bodyM n _ st') as [final trace]. simpl.
      exists r, trace. auto.
    + simpl. exists r, []. auto.
    + simpl. exists r, []. auto.
  - pose proof capS_range as Hcap.
    rewrite estimatedInliers_enter_single, Hempty, size_nil.
    split; [reflexivity|]. split.
    { unfold enter_single. destruct (rescoreS kModel_ outS) as [s0 inl0].
      simpl in Hempty. subst inl0. reflexivity. }
    split; [apply sample_size_empty; lia|].
    split; [intros Hprod; now apply wrap_small|].
    split; [intros Hm Hf Hprod; unfold kNonMinimalSampleSize_single;
            rewrite wrap_small; nia|].
    intros Hmax. unfold run_single.
    destruct (Z.to_nat (maxIterations self)) as [|n] eqn:En; [lia|]. simpl.
    destruct (bodyS 0 (enterS kInliersS kModel_ kScore_ outS)) as [[c st'] r] eqn:E.
    apply iteration_single_inv in E. cbv zeta in E.
    rewrite estimatedInliers_enter_single, Hempty in E.
    change (size (@nil Z)) with 0 in E.
    rewrite sample_size_empty in E by lia.
    destruct E as (_ & Hp & Hk & H).
    assert (Hfloor : sampleSize kEstimator_ <= capS -> step r <> TooSmall).
    { intros Hle Hs. rewrite Hs in H. lia. }
    destruct c.
    + destruct (for_loop bodyS n _ st') as [final trace]. simpl.
      exists r, trace. auto.
    + simpl. exists r, []. auto.
    + simpl. exists r, []. auto.
Qed.

(** *** The branch that copies all inliers *)

(** C10.  When the estimator's floor ([nonMinimalSampleSize] for the
    multi-match overload, [sampleSize] for the single-match one) is at
    least 1, no body of the loop takes the branch that copies all inliers
    into the sample: in every body that gets past the [break] the sample
    size differs from the number of inliers, is at most that number less
    one in [size_t], and is below it when there is an inlier.  With a
    sampler that refuses to draw more than its pool, every sample drawn
    is strictly smaller than the inlier set. *)
Theorem copy_branch_unreachable kInliersM kInliersS kScore_ outM outS :
  (1 <= nonMinimalSampleSize kEstimator_ ->
   Forall (fun r =>
             copied_all (step r) = false /\
             (step r <> TooSmall ->
              currentSampleSize r <> poolSize r /\
              currentSampleSize r <= wrap (poolSize r - 1) /\
              (1 <= poolSize r -> currentSampleSize r < poolSize r)) /\
             (sampler_refuses_oversized smp -> drew (step r) = true ->
              currentSampleSize r < poolSize r))
          (snd (runM kInliersM kModel_ kScore_ outM))) /\
  (1 <= sampleSize kEstimator_ ->
   Forall (fun r =>
             copied_all (step r) = false /\
             (step r <> TooSmall ->
              currentSampleSize r <> poolSize r /\
              currentSampleSize r <= wrap (poolSize r - 1) /\
              (1 <= poolSize r -> currentSampleSize r < poolSize r)) /\
             (sampler_refuses_oversized smp -> drew (step r) = true ->
              currentSampleSize r < poolSize r))
          (snd (runS kInliersS kModel_ kScore_ outS))).
Proof.
  split; intros Hfloor.
  - apply run_multi_trace. intros i st c st' r E.
    apply iteration_multi_inv in E. cbv zeta in E.
    destruct E as (_ & -> & -> & H).
    pose proof (size_nonneg (estimatedInliers st)) as Hn.
    pose proof (sample_size_eq_pool capM _ Hn) as Heq.
    pose proof (sample_size_le_wrap capM (size (estimatedInliers st))) as Hle.
    pose proof (sample_size_lt_pool capM (size (estimatedInliers st))) as Hlt.
    destruct (step r) as [| |copied|copied cnt]; cbn [copied_all drew].
    + repeat split; try congruence; discriminate.
    + repeat split; try discriminate; try lia; destruct H as (_ & _ & H & _); lia.
    + destruct H as (_ & Hk & H & _). destruct copied; [lia|].
      destruct H as [Hne Hok].
      repeat split; try lia. intros Href _.
      specialize (Href (samplerState st) (size (estimatedInliers st))
                       (sample_size capM (size (estimatedInliers st)))).
      destruct (Z.lt_ge_cases (size (estimatedInliers st))
                  (sample_size capM (size (estimatedInliers st)))) as [Hgt|Hge];
        [rewrite Href in Hok by exact Hgt; discriminate | lia].
    + destruct H as (_ & Hk & H & _). destruct copied; [lia|].
      destruct H as [Hne Hok].
      repeat split; try lia. intros Href _.
      specialize (Href (samplerState st) (size (estimatedInliers st))
                       (sample_size capM (size (estimatedInliers st)))).
      destruct (Z.lt_ge_cases (size (estimatedInliers st))
                  (sample_size capM (size (estimatedInliers st)))) as [Hgt|Hge];
        [rewrite Href in Hok by exact Hgt; discriminate | lia].
  - apply run_single_trace. intros i st c st' r E.
    apply iteration_single_inv in E. cbv zeta in E.
    destruct E as (_ & -> & -> & H).
    pose proof (size_nonneg (estimatedInliers st)) as Hn.
    pose proof (sample_size_eq_pool capS _ Hn) as Heq.
    pose proof (sample_size_le_wrap capS (size (estimatedInliers st))) as Hle.
    pose proof (sample_size_lt_pool capS (size (estimatedInliers st))) as Hlt.
    destruct (step r) as [| |copied|copied cnt]; cbn [copied_all drew].
    + repeat split; try congruence; discriminate.
    + repeat split; try discriminate; try lia; destruct H as (_ & _ & H & _); lia.
    + destruct H as (_ & Hk & H & _). destruct copied; [lia|].
      destruct H as [Hne Hok].
      repeat split; try lia. intros Href _.
      specialize (Href (samplerState st) (size (estimatedInliers st))
                       (sample_size capS (size (estimatedInliers st)))).
      destruct (Z.lt_ge_cases (size (estimatedInliers st))
                  (sample_size capS (size (estimatedInliers st)))) as [Hgt|Hge];
        [rewrite Href in Hok by exact Hgt; discriminate | lia].
    + destruct H as (_ & Hk & H & _). destruct copied; [lia|].
      destruct H as [Hne Hok].
      repeat split; try lia. intros Href _.
      specialize (Href (samplerState st) (size (estimatedInliers st))
                       (sample_size capS (size (estimatedInliers st)))).
      destruct (Z.lt_ge_cases (size (estimatedInliers st))
                  (sample_size capS (size (estimatedInliers st)))) as [Hgt|Hge];
        [rewrite Href in Hok by exact Hgt; discriminate | lia].
Qed.

(** *** The returned triple *)

(** The outputs always fit together: they are the input model with what the
    rescoring at entry returned, or a model with what rescoring it into a
    cleared vector returned. *)
Lemma run_multi_consistent kInliers_ kScore_ out :
  let st := fst (runM kInliers_ kModel_ kScore_ out) in
  outputs st = (kModel_, fst (rescoreM kModel_ out), snd (rescoreM kModel_ out)) \/
  outputs st = (estimatedModel st, fst (rescoreM (estimatedModel st) []),
                snd (rescoreM (estimatedModel st) [])).
Proof.
  cbv zeta.
  apply (run_multi_invariant
           (fun st =>
              outputs st = (kModel_, fst (rescoreM kModel_ out), snd (rescoreM kModel_ out)) \/
              outputs st = (estimatedModel st, fst (rescoreM (estimatedModel st) []),
                            snd (rescoreM (estimatedModel st) [])))).
  - intros st s H. exact H.
  - intros st m H.
    destruct (consider_cases rescoreM st m) as [[_ ->] | [_ ->]]; [right; reflexivity | exact H].
  - left. apply enter_multi_outputs.
Qed.

Lemma run_single_consistent kInliers_ kScore_ out :
  let st := fst (runS kInliers_ kModel_ kScore_ out) in
  outputs st = (kModel_, fst (rescoreS kModel_ out), snd (rescoreS kModel_ out)) \/
  outputs st = (estimatedModel st, fst (rescoreS (estimatedModel st) []),
                snd (rescoreS (estimatedModel st) [])).
Proof.
  cbv zeta.
  apply (run_single_invariant
           (fun st =>
              outputs st = (kModel_, fst (rescoreS kModel_ out), snd (rescoreS kModel_ out)) \/
              outputs st = (estimatedModel st, fst (rescoreS (estimatedModel st) []),
                            snd (rescoreS (estimatedModel st) [])))).
  - intros st s H. exact H.
  - intros st m H.
    destruct (consider_cases rescoreS st m) as [[_ ->] | [_ ->]]; [right; reflexivity | exact H].
  - left. apply enter_single_outputs.
Qed.

(** X1.  The three outputs of [run] belong together, in both overloads: the
    returned score and inlier set are what the scoring returned for the
    returned model, either at entry (the input model, scored into the output
    vector as the caller passed it) or in the loop (a candidate, scored into a
    cleared vector).  No mixture of one model's score with another's inliers
    is ever returned. *)
Theorem run_outputs_belong_together kInliersM kInliersS kScore_ outM outS :
  (let st := fst (runM kInliersM kModel_ kScore_ outM) in
   outputs st = (kModel_, fst (rescoreM kModel_ outM), snd (rescoreM kModel_ outM)) \/
   outputs st = (estimatedModel st, fst (rescoreM (estimatedModel st) []),
                 snd (rescoreM (estimatedModel st) []))) /\
  (let st := fst (runS kInliersS kModel_ kScore_ outS) in
   outputs st = (kModel_, fst (rescoreS kModel_ outS), snd (rescoreS kModel_ outS)) \/
   outputs st = (estimatedModel st, fst (rescoreS (estimatedModel st) []),
                 snd (rescoreS (estimatedModel st) []))).
Proof. split; [apply run_multi_consistent | apply run_single_consistent]. Qed.

(** *** Strict improvement *)

Section StrictOrder.
Hypothesis Score_gt_trans :
  forall a b c, Score_gt a b = true -> Score_gt b c = true -> Score_gt a c = true.
Hypothesis Score_gt_irrefl : forall a, Score_gt a a = false.

Lemma run_multi_improves kInliers_ kScore_ out :
  let st := fst (runM kInliers_ kModel_ kScore_ out) in
  outputs st = (kModel_, fst (rescoreM kModel_ out), snd (rescoreM kModel_ out)) \/
  Score_gt (estimatedScore st) (fst (rescoreM kModel_ out)) = true.
Proof.
  cbv zeta.
  apply (run_multi_invariant
           (fun st =>
              outputs st = (kModel_, fst (rescoreM kModel_ out), snd (rescoreM kModel_ out)) \/
              Score_gt (estimatedScore st) (fst (rescoreM kModel_ out)) = true)).
  - intros st s H. exact H.
  - intros st m H.
    destruct (consider_cases rescoreM st m) as [[Hgt ->] | [_ ->]]; [|exact H].
    right. cbn [estimatedScore]. destruct H as [H | H].
    + injection H as _ Hs _. now rewrite <- Hs.
    + eauto.
  - left. apply enter_multi_outputs.
Qed.

Lemma run_single_improves kInliers_ kScore_ out :
  let st := fst (runS kInliers_ kModel_ kScore_ out) in
  outputs st = (kModel_, fst (rescoreS kModel_ out), snd (rescoreS kModel_ out)) \/
  Score_gt (estimatedScore st) (fst (rescoreS kModel_ out)) = true.
Proof.
  cbv zeta.
  apply (run_single_invariant
           (fun st =>
              outputs st = (kModel_, fst (rescoreS kModel_ out), snd (rescoreS kModel_ out)) \/
              Score_gt (estimatedScore st) (fst (rescoreS kModel_ out)) = true)).
  - intros st s H. exact H.
  - intros st m H.
    destruct (consider_cases rescoreS st m) as [[Hgt ->] | [_ ->]]; [|exact H].
    right. cbn [estimatedScore]. destruct H as [H | H].
    + injection H as _ Hs _. now rewrite <- Hs.
    + eauto.
  - left. apply enter_single_outputs.
Qed.

Lemma run_multi_not_below kInliers_ kScore_ out :
  Score_ge Score_gt (estimatedScore (fst (runM kInliers_ kModel_ kScore_ out)))
           (fst (rescoreM kModel_ out)).
Proof.
  destruct (run_multi_improves kInliers_ kScore_ out) as [H | H]; [|now right].
  left. now injection H.
Qed.

Lemma run_single_not_below kInliers_ kScore_ out :
  Score_ge Score_gt (estimatedScore (fst (runS kInliers_ kModel_ kScore_ out)))
           (fst (rescoreS kModel_ out)).
Proof.
  destruct (run_single_improves kInliers_ kScore_ out) as [H | H]; [|now right].
  left. now injection H.
Qed.

(** X2.  [run] changes its outputs only by improving: in both overloads,
    either all three outputs are the input model and what rescoring it
    returned, or the returned score is strictly greater, by [operator>], than
    the rescored score of the input model.  A different model with an equal
    score is never returned.  ([operator>] is taken to be transitive.) *)
Theorem run_changes_only_by_improving kInliersM kInliersS kScore_ outM outS :
  (let st := fst (runM kInliersM kModel_ kScore_ outM) in
   outputs st = (kModel_, fst (rescoreM kModel_ outM), snd (rescoreM kModel_ outM)) \/
   Score_gt (estimatedScore st) (fst (rescoreM kModel_ outM)) = true) /\
  (let st := fst (runS kInliersS kModel_ kScore_ outS) in
   outputs st = (kModel_, fst (rescoreS kModel_ outS), snd (rescoreS kModel_ outS)) \/
   Score_gt (estimatedScore st) (fst (rescoreS kModel_ outS)) = true).
Proof. split; [apply run_multi_improves | apply run_single_improves]. Qed.

(** A score that does not beat the best does not beat a later best. *)
Lemma not_gt_later a b b' :
  Score_gt a b = false -> Score_ge Score_gt b' b -> Score_gt a b' = false.
Proof.
  intros Hab [-> | Hgt]; [exact Hab|].
  destruct (Score_gt a b') eqn:E; [|reflexivity].
  rewrite <- Hab. symmetry. now apply Score_gt_trans with b'.
Qed.

Lemma fold_consider_ge {I} (rescore : Model -> list I -> Score * list I) models st :
  Score_ge Score_gt (estimatedScore (fold_left (candidate rescore) models st))
           (estimatedScore st).
Proof.
  apply (fold_consider_invariant rescore
           (fun st' => Score_ge Score_gt (estimatedScore st') (estimatedScore st))).
  - intros st' m H. now apply Score_ge_candidate.
  - now left.
Qed.

(** X3.  The loop over the candidate models keeps the maximum: after it, no
    candidate of the list scores strictly above the best score and neither
    does the best score it started from, and the outputs are the ones it
    started from or one of the candidates with what rescoring it returned.
    ([operator>] is taken to be a strict order.) *)
Theorem candidates_leave_the_maximum {I : Type}
    (rescore : Model -> list I -> Score * list I) (models : list Model) (st : State I) :
  let final := fold_left (consider Score_gt smp rescore) models st in
  Score_gt (estimatedScore st) (estimatedScore final) = false /\
  Forall (fun m => Score_gt (fst (rescore m [])) (estimatedScore final) = false) models /\
  (outputs final = outputs st \/
   exists m, In m models /\ outputs final = (m, fst (rescore m []), snd (rescore m []))).
Proof.
  cbv zeta. split; [|split].
  - apply (Score_ge_not_gt Score_gt_trans Score_gt_irrefl). apply fold_consider_ge.
  - revert st. induction models as [|m ms IH]; intros st; simpl; constructor.
    + apply not_gt_later with (estimatedScore (candidate rescore st m));
        [|apply fold_consider_ge].
      destruct (consider_cases rescore st m) as [[_ ->] | [Hgt ->]];
        [apply Score_gt_irrefl | exact Hgt].
    + apply IH.
  - revert st. induction models as [|m ms IH]; intros st; simpl; [now left|].
    destruct (IH (candidate rescore st m)) as [-> | (m' & Hin & ->)].
    + destruct (consider_cases rescore st m) as [[_ ->] | [_ ->]]; [|now left].
      right. exists m. split; [now left | reflexivity].
    + right. exists m'. split; [now right | reflexivity].
Qed.
End StrictOrder.

(** *** The sample and the buffers *)

(** X4.  No body of the loop uses more of the sample buffers than was
    allocated: in both overloads the sample size of every iteration lies
    between 0 and [kNonMinimalSampleSize], the length of [currentSample] and
    [currentMatches], and it is at least the estimator's floor in every body
    that gets past the [break]. *)
Theorem run_sample_fits_buffers kInliersM kInliersS kScore_ outM outS :
  Forall (fun r =>
            0 <= currentSampleSize r <= kNonMinimalSampleSize_multi self kEstimator_ /\
            (step r <> TooSmall -> nonMinimalSampleSize kEstimator_ <= currentSampleSize r))
         (snd (runM kInliersM kModel_ kScore_ outM)) /\
  Forall (fun r =>
            0 <= currentSampleSize r <= kNonMinimalSampleSize_single self kEstimator_ /\
            (step r <> TooSmall -> sampleSize kEstimator_ <= currentSampleSize r))
         (snd (runS kInliersS kModel_ kScore_ outS)).
Proof.
  split.
  - apply run_multi_trace. intros i st c st' r E.
    apply iteration_multi_inv in E. cbv zeta in E.
    destruct E as (_ & _ & -> & H).
    pose proof capM_range as Hcap.
    pose proof (wrap_range (size (estimatedInliers st) - 1)) as Hw.
    split.
    + unfold sample_size.
      destruct (Z.geb_spec (wrap (size (estimatedInliers st) - 1)) capM); lia.
    + destruct (step r); intros Hs; try congruence; apply H.
  - apply run_single_trace. intros i st c st' r E.
    apply iteration_single_inv in E. cbv zeta in E.
    destruct E as (_ & _ & -> & H).
    pose proof capS_range as Hcap.
    pose proof (wrap_range (size (estimatedInliers st) - 1)) as Hw.
    split.
    + unfold sample_size.
      destruct (Z.geb_spec (wrap (size (estimatedInliers st) - 1)) capS); lia.
    + destruct (step r); intros Hs; try congruence; apply H.
Qed.

(** X5.  On an inlier set that is not empty the sample size is the one the
    comments of the source describe: in every body of either overload that
    starts with between 1 and [2^64] inliers, it is the minimum of
    [kNonMinimalSampleSize] and the number of inliers less one; and a body
    breaks exactly when its sample size is below the estimator's floor. *)
Theorem run_sample_size_on_inliers kInliersM kInliersS kScore_ outM outS :
  Forall (fun r =>
            (1 <= poolSize r <= 2 ^ 64 ->
             currentSampleSize r =
               Z.min (kNonMinimalSampleSize_multi self kEstimator_) (poolSize r - 1)) /\
            (step r = TooSmall <->
             currentSampleSize r < nonMinimalSampleSize kEstimator_))
         (snd (runM kInliersM kModel_ kScore_ outM)) /\
  Forall (fun r =>
            (1 <= poolSize r <= 2 ^ 64 ->
             currentSampleSize r =
               Z.min (kNonMinimalSampleSize_single self kEstimator_) (poolSize r - 1)) /\
            (step r = TooSmall <-> currentSampleSize r < sampleSize kEstimator_))
         (snd (runS kInliersS kModel_ kScore_ outS)).
Proof.
  split.
  - eapply Forall_impl; [|apply run_multi_sample_sizes]. simpl. intros r H. tauto.
  - eapply Forall_impl; [|apply run_single_sample_sizes]. simpl. intros r H. tauto.
Qed.

(** *** How the loop ends *)

(** In a list in which a marked element has nothing after it, no element
    before the last is marked. *)
Lemma only_last_marked {A} (mark : A -> Prop) (l : list A) :
  (forall l1 x l2, l = l1 ++ x :: l2 -> mark x -> l2 = []) ->
  Forall (fun x => ~ mark x) (removelast l).
Proof.
  induction l as [|a l IH]; intros H; [constructor|].
  destruct l as [|b l]; [constructor|].
  change (removelast (a :: b :: l)) with (a :: removelast (b :: l)).
  constructor.
  - intros Ha. specialize (H [] a (b :: l) eq_refl Ha). discriminate.
  - apply IH. intros l1 x l2 E Hx. apply (H (a :: l1) x l2); [|exact Hx].
    simpl. now rewrite E.
Qed.

Lemma run_multi_stop_is_last kInliers_ kScore_ out l1 r l2 :
  snd (runM kInliers_ kModel_ kScore_ out) = l1 ++ r :: l2 ->
  (step r = TooSmall \/ exists copied, step r = EstimatorFailed copied) -> l2 = [].
Proof.
  intros E [Hs | [copied Hs]].
  - eapply run_multi_break_is_last; eauto.
  - eapply run_multi_failure_is_last; eauto.
Qed.

(** X6.  Only the last body executed can be one that leaves the loop: in the
    multi-match overload no body but the last breaks on a too small sample or
    sees the estimator fail; in the single-match overload no body but the last
    breaks, while failures of the estimator may occur anywhere. *)
Theorem run_only_last_body_stops kInliersM kInliersS kScore_ outM outS :
  Forall (fun r => step r <> TooSmall /\ forall copied, step r <> EstimatorFailed copied)
         (removelast (snd (run_multi zero Score_gt smp self kDataSrc_ kDataDst_ kMatches_
                        kMatchScores_ kEstimator_ kScoring_
                        kInliersM kModel_ kScore_ outM))) /\
  Forall (fun r => step r <> TooSmall)
         (removelast (snd (run_single Score_gt smp self kData_ kEstimator_ kScoring_
                         kInliersS kModel_ kScore_ outS))).
Proof.
  split.
  - eapply Forall_impl;
      [|apply (only_last_marked
                 (fun r => step r = TooSmall \/ exists c, step r = EstimatorFailed c));
        intros l1 x l2; apply run_multi_stop_is_last].
    simpl. intros r Hr. split; [tauto|]. intros c Hc. apply Hr. eauto.
  - apply (only_last_marked (fun r => step r = TooSmall)).
    intros l1 x l2. apply run_single_break_is_last.
Qed.

Lemma run_multi_only_stop_ends kInliers_ kScore_ out :
  length (snd (runM kInliers_ kModel_ kScore_ out)) = Z.to_nat (maxIterations self) \/
  exists l r, snd (runM kInliers_ kModel_ kScore_ out) = l ++ [r] /\
              (step r = TooSmall \/ exists copied, step r = EstimatorFailed copied).
Proof.
  unfold run_multi.
  apply (for_loop_exhausts _ bodyM (fun _ => True)
           (fun r => step r = TooSmall \/ exists copied, step r = EstimatorFailed copied));
    auto.
  intros i st c st' r _ E. split; auto.
  apply iteration_multi_inv in E. destruct E as (_ & _ & _ & H).
  destruct (step r) as [| |copied|copied cnt]; eauto; left; apply H.
Qed.

(** X7.  The loop is cut short only by a [break] or a [return]: the
    multi-match overload executes exactly [maxIterations] bodies unless the
    last one executed broke on a too small sample or saw the estimator fail;
    the single-match overload executes exactly [maxIterations] bodies unless
    the last one broke.  A refusal of the sampler never shortens the loop. *)
Theorem run_is_cut_short_only_by_a_stop kInliersM kInliersS kScore_ outM outS :
  (length (snd (run_multi zero Score_gt smp self kDataSrc_ kDataDst_ kMatches_
                        kMatchScores_ kEstimator_ kScoring_
                        kInliersM kModel_ kScore_ outM)) = Z.to_nat (maxIterations self) \/
   exists l r, snd (run_multi zero Score_gt smp self kDataSrc_ kDataDst_ kMatches_
                        kMatchScores_ kEstimator_ kScoring_
                        kInliersM kModel_ kScore_ outM) = l ++ [r] /\
               (step r = TooSmall \/ exists copied, step r = EstimatorFailed copied)) /\
  (length (snd (run_single Score_gt smp self kData_ kEstimator_ kScoring_
                         kInliersS kModel_ kScore_ outS)) = Z.to_nat (maxIterations self) \/
   exists l r, snd (run_single Score_gt smp self kData_ kEstimator_ kScoring_
                         kInliersS kModel_ kScore_ outS) = l ++ [r] /\ step r = TooSmall).
Proof. split; [apply run_multi_only_stop_ends | apply run_single_only_break_ends]. Qed.

(** *** Calls that never get a sample *)

(** When [kNonMinimalSampleSize] is below the floor the first body breaks. *)
Lemma run_multi_low_cap kInliers_ kScore_ out :
  capM < nonMinimalSampleSize kEstimator_ ->
  fst (runM kInliers_ kModel_ kScore_ out) = enterM kInliers_ kModel_ kScore_ out /\
  (length (snd (runM kInliers_ kModel_ kScore_ out)) <= 1)%nat /\
  Forall (fun r => step r = TooSmall) (snd (runM kInliers_ kModel_ kScore_ out)).
Proof.
  intros Hcap. unfold run_multi.
  destruct (Z.to_nat (maxIterations self)) as [|n]; simpl; [auto|].
  destruct (bodyM 0 (enterM kInliers_ kModel_ kScore_ out)) as [[c st'] r] eqn:E.
  pose proof (iteration_multi_inv _ _ _ _ _ _ _ _ _ _ _ _ E) as H. cbv zeta in H.
  pose proof (sample_size_le_cap capM
                (size (estimatedInliers (enterM kInliers_ kModel_ kScore_ out)))) as Hle.
  destruct H as (_ & _ & _ & H). destruct (step r) eqn:Hstep.
  - destruct H as (-> & -> & _). simpl. auto.
  - destruct H as (_ & H & _). lia.
  - destruct H as (_ & H & _). lia.
  - destruct H as (_ & H & _). lia.
Qed.

Lemma run_single_low_cap kInliers_ kScore_ out :
  capS < sampleSize kEstimator_ ->
  fst (runS kInliers_ kModel_ kScore_ out) = enterS kInliers_ kModel_ kScore_ out /\
  (length (snd (runS kInliers_ kModel_ kScore_ out)) <= 1)%nat /\
  Forall (fun r => step r = TooSmall) (snd (runS kInliers_ kModel_ kScore_ out)).
Proof.
  intros Hcap. unfold run_single.
  destruct (Z.to_nat (maxIterations self)) as [|n]; simpl; [auto|].
  destruct (bodyS 0 (enterS kInliers_ kModel_ kScore_ out)) as [[c st'] r] eqn:E.
  pose proof (iteration_single_inv _ _ _ _ _ _ _ _ _ E) as H. cbv zeta in H.
  pose proof (sample_size_le_cap capS
                (size (estimatedInliers (enterS kInliers_ kModel_ kScore_ out)))) as Hle.
  destruct H as (_ & _ & _ & H). destruct (step r) eqn:Hstep.
  - destruct H as (-> & -> & _). simpl. auto.
  - destruct H as (_ & H & _). lia.
  - destruct H as (_ & H & _). lia.
  - destruct H as (_ & H & _). lia.
Qed.

(** One body on an empty inlier set, with a sampler that refuses to draw more
    than its pool and a sample size that is not below the floor. *)
Lemma iteration_multi_empty i st c st' r :
  estimatedInliers st = [] ->
  sampler_refuses_oversized smp ->
  1 <= nonMinimalSampleSize kEstimator_ <= capM ->
  bodyM i st = (c, st', r) ->
  c = Continue /\ estimatedInliers st' = [] /\
  poolSize r = 0 /\ currentSampleSize r = capM /\ step r = SampleRefused.
Proof.
  intros Hnil Href Hfloor E.
  apply iteration_multi_inv in E. cbv zeta in E. rewrite Hnil in E.
  change (size (@nil (Z * Z))) with 0 in E.
  rewrite sample_size_empty in E by apply capM_range.
  destruct E as (_ & Hp & Hk & H).
  specialize (Href (samplerState st) 0 capM).
  destruct (step r) as [| |copied|copied cnt].
  - lia.
  - destruct H as (-> & _ & _ & _ & ->). auto.
  - destruct H as (_ & _ & H & _). destruct copied; [lia|].
    destruct H as [_ Hok]. rewrite Href in Hok by lia. discriminate.
  - destruct H as (_ & _ & H & _). destruct copied; [lia|].
    destruct H as [_ Hok]. rewrite Href in Hok by lia. discriminate.
Qed.

Lemma iteration_single_empty i st c st' r :
  estimatedInliers st = [] ->
  sampler_refuses_oversized smp ->
  1 <= sampleSize kEstimator_ <= capS ->
  bodyS i st = (c, st', r) ->
  c = Continue /\ estimatedInliers st' = [] /\
  poolSize r = 0 /\ currentSampleSize r = capS /\ step r = SampleRefused.
Proof.
  intros Hnil Href Hfloor E.
  apply iteration_single_inv in E. cbv zeta in E. rewrite Hnil in E.
  change (size (@nil Z)) with 0 in E.
  rewrite sample_size_empty in E by apply capS_range.
  destruct E as (_ & Hp & Hk & H).
  specialize (Href (samplerState st) 0 capS).
  destruct (step r) as [| |copied|copied cnt].
  - lia.
  - destruct H as (-> & _ & _ & _ & ->). auto.
  - destruct H as (_ & _ & H & _). destruct copied; [lia|].
    destruct H as [_ Hok]. rewrite Href in Hok by lia. discriminate.
  - destruct H as (_ & _ & H & _). destruct copied; [lia|].
    destruct H as [_ Hok]. rewrite Href in Hok by lia. discriminate.
Qed.

(** X8.  On an empty inlier set the loop does not stop: in both overloads,
    when rescoring the input model leaves no inlier, the sampler refuses to
    draw more than its pool and [kNonMinimalSampleSize] is at least the
    estimator's floor, itself at least 1, [run] executes all [maxIterations]
    bodies, and every one of them computes the sample size
    [kNonMinimalSampleSize] for a pool of 0 and is refused by the sampler. *)
Theorem run_on_empty_inliers_spins kInliersM kInliersS kScore_ outM outS :
  sampler_refuses_oversized smp ->
  (snd (rescoreM kModel_ outM) = [] ->
   1 <= nonMinimalSampleSize kEstimator_ <= kNonMinimalSampleSize_multi self kEstimator_ ->
   length (snd (runM kInliersM kModel_ kScore_ outM)) = Z.to_nat (maxIterations self) /\
   Forall (fun r => poolSize r = 0 /\
                    currentSampleSize r = kNonMinimalSampleSize_multi self kEstimator_ /\
                    step r = SampleRefused)
          (snd (runM kInliersM kModel_ kScore_ outM))) /\
  (snd (rescoreS kModel_ outS) = [] ->
   1 <= sampleSize kEstimator_ <= kNonMinimalSampleSize_single self kEstimator_ ->
   length (snd (runS kInliersS kModel_ kScore_ outS)) = Z.to_nat (maxIterations self) /\
   Forall (fun r => poolSize r = 0 /\
                    currentSampleSize r = kNonMinimalSampleSize_single self kEstimator_ /\
                    step r = SampleRefused)
          (snd (runS kInliersS kModel_ kScore_ outS))).
Proof.
  intros Href. split; intros Hempty Hfloor.
  - assert (H0 : estimatedInliers (enterM kInliersM kModel_ kScore_ outM) = [])
      by now rewrite estimatedInliers_enter_multi.
    unfold run_multi. split.
    + destruct (for_loop_exhausts _ bodyM (fun st => estimatedInliers st = [])
                  (fun _ => False)) with
        (remaining := Z.to_nat (maxIterations self)) (iteration := 0)
        (st := enterM kInliersM kModel_ kScore_ outM) as [H | (l & r & _ & [])];
        [|exact H0|exact H].
      intros i st c st' r Hnil E.
      destruct (iteration_multi_empty _ _ _ _ _ Hnil Href Hfloor E) as (-> & H & _).
      auto.
    + apply (for_loop_invariant _ bodyM (fun st => estimatedInliers st = [])); [|exact H0].
      intros i st c st' r Hnil E.
      destruct (iteration_multi_empty _ _ _ _ _ Hnil Href Hfloor E) as (_ & H & Hr).
      auto.
  - assert (H0 : estimatedInliers (enterS kInliersS kModel_ kScore_ outS) = [])
      by now rewrite estimatedInliers_enter_single.
    unfold run_single. split.
    + destruct (for_loop_exhausts _ bodyS (fun st => estimatedInliers st = [])
                  (fun _ => False)) with
        (remaining := Z.to_nat (maxIterations self)) (iteration := 0)
        (st := enterS kInliersS kModel_ kScore_ outS) as [H | (l & r & _ & [])];
        [|exact H0|exact H].
      intros i st c st' r Hnil E.
      destruct (iteration_single_empty _ _ _ _ _ Hnil Href Hfloor E) as (-> & H & _).
      auto.
    + apply (for_loop_invariant _ bodyS (fun st => estimatedInliers st = [])); [|exact H0].
      intros i st c st' r Hnil E.
      destruct (iteration_single_empty _ _ _ _ _ Hnil Href Hfloor E) as (_ & H & Hr).
      auto.
Qed.

(** X15.  When [kNonMinimalSampleSize], the product of the multiplier and
    the estimator's sample size reduced to [size_t], is below the estimator's
    floor (the multiplier is zero, or the product wraps around), both
    overloads break in their first body whatever the inlier set: at most one
    body runs, none draws a sample, and the outputs are the input model with
    the score and inliers of its rescoring. *)
Theorem run_breaks_at_once_below_floor kInliersM kInliersS kScore_ outM outS :
  (kNonMinimalSampleSize_multi self kEstimator_ < nonMinimalSampleSize kEstimator_ ->
   outputs (fst (runM kInliersM kModel_ kScore_ outM))
     = (kModel_, fst (rescoreM kModel_ outM), snd (rescoreM kModel_ outM)) /\
   (length (snd (runM kInliersM kModel_ kScore_ outM)) <= 1)%nat /\
   Forall (fun r => step r = TooSmall) (snd (runM kInliersM kModel_ kScore_ outM))) /\
  (kNonMinimalSampleSize_single self kEstimator_ < sampleSize kEstimator_ ->
   outputs (fst (runS kInliersS kModel_ kScore_ outS))
     = (kModel_, fst (rescoreS kModel_ outS), snd (rescoreS kModel_ outS)) /\
   (length (snd (runS kInliersS kModel_ kScore_ outS)) <= 1)%nat /\
   Forall (fun r => step r = TooSmall) (snd (runS kInliersS kModel_ kScore_ outS))).
Proof.
  split; intros Hcap.
  - destruct (run_multi_low_cap kInliersM kScore_ outM Hcap) as (-> & Hlen & Htr).
    split; [apply enter_multi_outputs | auto].
  - destruct (run_single_low_cap kInliersS kScore_ outS Hcap) as (-> & Hlen & Htr).
    split; [apply enter_single_outputs | auto].
Qed.
End RunFacts.
End OptimizerFacts.

(** ** The setters, repeated calls and the sample buffers *)

Section Composition.
Context {Scalar Model Score SamplerState : Type}.
Variable zero : Scalar.
Variable Score_gt : Score -> Score -> bool.
Variable smp : UniformRandomSampler SamplerState.
Variables kDataSrc_ kDataDst_ kMatches_ kMatchScores_ kData_ : DataMatrix (Scalar := Scalar).
Variable kEstimator_ : Estimator (Scalar := Scalar) (Model := Model).
Variable kScoring_ : AbstractScoring (Scalar := Scalar) (Model := Model) (Score := Score).

#[local] Abbreviation run_m self :=
  (run_multi zero Score_gt smp self kDataSrc_ kDataDst_ kMatches_ kMatchScores_
             kEstimator_ kScoring_).
#[local] Abbreviation run_s self :=
  (run_single Score_gt smp self kData_ kEstimator_ kScoring_).
#[local] Abbreviation score_m :=
  (rescore_multi kDataSrc_ kDataDst_ kMatches_ kMatchScores_ kEstimator_ kScoring_).
#[local] Abbreviation score_s := (rescore_single kData_ kEstimator_ kScoring_).

(** X9.  [setMaxIterations] bounds the work of [run] whatever else is set:
    after [setMaxIterations(n)], and any later [setSampleSizeMultiplier], both
    overloads execute at most [n] bodies; after [setMaxIterations(0)] they
    execute none, and what they return is the input model with the score and
    inliers of its rescoring. *)
Theorem run_after_setMaxIterations (o : NestedRANSACOptimizer) (n m : Z)
    kInliersM kInliersS kModel_ kScore_ outM outS :
  ((length (snd (run_m (setSampleSizeMultiplier (setMaxIterations o n) m)
                       kInliersM kModel_ kScore_ outM)) <= Z.to_nat n)%nat /\
   (length (snd (run_s (setSampleSizeMultiplier (setMaxIterations o n) m)
                       kInliersS kModel_ kScore_ outS)) <= Z.to_nat n)%nat) /\
  (snd (run_m (setMaxIterations o 0) kInliersM kModel_ kScore_ outM) = [] /\
   outputs (fst (run_m (setMaxIterations o 0) kInliersM kModel_ kScore_ outM))
     = (kModel_, fst (score_m kModel_ outM), snd (score_m kModel_ outM))) /\
  (snd (run_s (setMaxIterations o 0) kInliersS kModel_ kScore_ outS) = [] /\
   outputs (fst (run_s (setMaxIterations o 0) kInliersS kModel_ kScore_ outS))
     = (kModel_, fst (score_s kModel_ outS), snd (score_s kModel_ outS))).
Proof.
  split; [split; apply for_loop_length|]. split; (split; [reflexivity|]).
  - apply enter_multi_outputs.
  - apply enter_single_outputs.
Qed.

(** X10.  A multiplier of zero switches the optimizer off: after
    [setSampleSizeMultiplier(0)], with an estimator whose floor is at least 1,
    both overloads break in their first body, so that no sample is drawn and
    the estimator is not called, and return the input model with the score
    and inliers of its rescoring. *)
Theorem run_with_zero_multiplier (o : NestedRANSACOptimizer)
    kInliersM kInliersS kModel_ kScore_ outM outS :
  (1 <= nonMinimalSampleSize kEstimator_ ->
   outputs (fst (run_m (setSampleSizeMultiplier o 0) kInliersM kModel_ kScore_ outM))
     = (kModel_, fst (score_m kModel_ outM), snd (score_m kModel_ outM)) /\
   (length (snd (run_m (setSampleSizeMultiplier o 0) kInliersM kModel_ kScore_ outM))
      <= 1)%nat /\
   Forall (fun r => step r = TooSmall)
          (snd (run_m (setSampleSizeMultiplier o 0) kInliersM kModel_ kScore_ outM))) /\
  (1 <= sampleSize kEstimator_ ->
   outputs (fst (run_s (setSampleSizeMultiplier o 0) kInliersS kModel_ kScore_ outS))
     = (kModel_, fst (score_s kModel_ outS), snd (score_s kModel_ outS)) /\
   (length (snd (run_s (setSampleSizeMultiplier o 0) kInliersS kModel_ kScore_ outS))
      <= 1)%nat /\
   Forall (fun r => step r = TooSmall)
          (snd (run_s (setSampleSizeMultiplier o 0) kInliersS kModel_ kScore_ outS))).
Proof.
  split; intros Hfloor.
  - destruct (run_multi_low_cap zero Score_gt smp (setSampleSizeMultiplier o 0)
                kDataSrc_ kDataDst_ kMatches_ kMatchScores_ kEstimator_ kScoring_
                kModel_ kInliersM kScore_ outM) as (-> & Hlen & Htr).
    { unfold kNonMinimalSampleSize_multi. simpl. rewrite wrap_small; lia. }
    split; [apply enter_multi_outputs | auto].
  - destruct (run_single_low_cap Score_gt smp (setSampleSizeMultiplier o 0)
                kData_ kEstimator_ kScoring_ kModel_ kInliersS kScore_ outS)
      as (-> & Hlen & Htr).
    { unfold kNonMinimalSampleSize_single. simpl. rewrite wrap_small; lia. }
    split; [apply enter_single_outputs | auto].
Qed.

Section Again.
Hypothesis Score_gt_trans :
  forall a b c, Score_gt a b = true -> Score_gt b c = true -> Score_gt a c = true.
Hypothesis Score_gt_irrefl : forall a, Score_gt a a = false.

(** X12.  Optimizing again does not lose what was gained: when [run] is
    called a second time on the model a first call returned, both calls with
    empty output vectors, the score of the second call is greater than or
    equal to the score of the first, in both overloads and whatever the
    settings, incoming scores and incoming inlier sets of the two calls.
    ([operator>] is taken to be a strict order.) *)
Theorem run_again_keeps_the_score (self1 self2 : NestedRANSACOptimizer)
    kInliersM1 kInliersM2 kInliersS1 kInliersS2 kModel_ kScore1 kScore2 :
  (let first := fst (run_m self1 kInliersM1 kModel_ kScore1 []) in
   let second := fst (run_m self2 kInliersM2 (estimatedModel first) kScore2 []) in
   Score_ge Score_gt (estimatedScore second) (estimatedScore first) /\
   Score_gt (estimatedScore first) (estimatedScore second) = false) /\
  (let first := fst (run_s self1 kInliersS1 kModel_ kScore1 []) in
   let second := fst (run_s self2 kInliersS2 (estimatedModel first) kScore2 []) in
   Score_ge Score_gt (estimatedScore second) (estimatedScore first) /\
   Score_gt (estimatedScore first) (estimatedScore second) = false).
Proof.
  split; cbv zeta.
  - assert (H1 : estimatedScore (fst (run_m self1 kInliersM1 kModel_ kScore1 []))
                 = fst (score_m (estimatedModel
                                   (fst (run_m self1 kInliersM1 kModel_ kScore1 []))) [])).
    { destruct (run_multi_consistent zero Score_gt smp self1 kDataSrc_ kDataDst_
                  kMatches_ kMatchScores_ kEstimator_ kScoring_ kModel_
                  kInliersM1 kScore1 []) as [H | H].
      - injection H as Hm Hs _. now rewrite Hm.
      - now injection H. }
    assert (H2 := run_multi_not_below zero Score_gt smp self2 kDataSrc_ kDataDst_
                    kMatches_ kMatchScores_ kEstimator_ kScoring_
                    (estimatedModel (fst (run_m self1 kInliersM1 kModel_ kScore1 [])))
                    Score_gt_trans kInliersM2 kScore2 []).
    rewrite <- H1 in H2. split; [exact H2|].
    now apply (Score_ge_not_gt Score_gt Score_gt_trans Score_gt_irrefl).
  - assert (H1 : estimatedScore (fst (run_s self1 kInliersS1 kModel_ kScore1 []))
                 = fst (score_s (estimatedModel
                                   (fst (run_s self1 kInliersS1 kModel_ kScore1 []))) [])).
    { destruct (run_single_consistent Score_gt smp self1 kData_ kEstimator_ kScoring_
                  kModel_ kInliersS1 kScore1 []) as [H | H].
      - injection H as Hm Hs _. now rewrite Hm.
      - now injection H. }
    assert (H2 := run_single_not_below Score_gt smp self2 kData_ kEstimator_ kScoring_
                    (estimatedModel (fst (run_s self1 kInliersS1 kModel_ kScore1 [])))
                    Score_gt_trans kInliersS2 kScore2 []).
    rewrite <- H1 in H2. split; [exact H2|].
    now apply (Score_ge_not_gt Score_gt Score_gt_trans Score_gt_irrefl).
Qed.
End Again.

(** *** What is handed to the estimator *)

Lemma map_nth_seq_all {I} (d : I) (v : list I) :
  map (fun j => nth j v d) (seq 0 (length v)) = v.
Proof.
  apply nth_ext with (d := d) (d' := d).
  - now rewrite length_map, length_seq.
  - intros n Hn. rewrite length_map, length_seq in Hn.
    rewrite (nth_indep _ d (nth 0%nat v d)) by now rewrite length_map, length_seq.
    rewrite (map_nth (fun j => nth j v d) (seq 0 (length v)) 0%nat n).
    now rewrite seq_nth.
Qed.

(** X13.  The sample consists of inliers.  The copying branch, when the
    sample size is the number of inliers, yields the inlier vector itself;
    the sampling branch yields exactly [k] elements, and when the first [k]
    indices of the sampler lie inside the inlier vector every one of them is
    an inlier. *)
Theorem sample_consists_of_inliers {I : Type} (d : I) (v : list I)
    (currentSample : list Z) (k : Z) :
  copy_prefix d v (size v) = v /\
  length (gather d v currentSample k) = Z.to_nat k /\
  ((forall j, (j < Z.to_nat k)%nat -> 0 <= nth j currentSample 0 < size v) ->
   Forall (fun x => In x v) (gather d v currentSample k)).
Proof.
  split; [|split].
  - unfold copy_prefix, size. rewrite Nat2Z.id. apply map_nth_seq_all.
  - unfold gather. now rewrite length_map, length_seq.
  - intros Hidx. unfold gather. apply Forall_forall. intros x Hx.
    apply in_map_iff in Hx. destruct Hx as (j & <- & Hj).
    apply in_seq in Hj. specialize (Hidx j ltac:(lia)).
    apply nth_In. unfold size in Hidx. lia.
Qed.

End Composition.

(** ** The settings *)

(** C6.  The default member initializers of [RANSACSettings] and of
    [LocalOptimizationSettings], and the constructor of
    [NestedRANSACOptimizer]: 1000 and 5000 iterations, 4 cores, threshold 1.5,
    confidence 0.99, MAGSAC scoring, the uniform sampler, nested RANSAC as
    local and IRLS as final optimization, the RANSAC termination criterion,
    and 50 iterations with multiplier 7 for the local optimization, in the
    settings as in the optimizer. *)
Theorem default_settings :
  let d := settings.RANSACSettings_default in
  settings.minIterations d = 1000 /\
  settings.ransacMaxIterations d = 5000 /\
  settings.coreNumber d = 4 /\
  settings.inlierThreshold d = 1.5%Q /\
  settings.confidence d = 0.99%Q /\
  settings.scoring d = scoring.MAGSAC /\
  settings.sampler d = samplers.Uniform /\
  settings.localOptimization d = local_optimization.NestedRANSAC /\
  settings.finalOptimization d = local_optimization.IRLS /\
  settings.terminationCriterion d = termination.RANSAC /\
  settings.maxIterations (settings.localOptimizationSettings d) = 50 /\
  settings.sampleSizeMultiplier (settings.localOptimizationSettings d) = 7 /\
  settings.maxIterations (settings.finalOptimizationSettings d) = 50 /\
  settings.sampleSizeMultiplier (settings.finalOptimizationSettings d) = 7 /\
  maxIterations NestedRANSACOptimizer_new = 50 /\
  sampleSizeMultiplier NestedRANSACOptimizer_new = 7.
Proof. cbv zeta. repeat split. Qed.

(** ** The score of the spec is a strict order *)

Lemma score_gt_irrefl a : score.Score_gt a a = false.
Proof.
  unfold score.Score_gt.
  destruct (Qcompare_spec (score.value a) (score.value a)) as [H|H|H].
  - apply Z.ltb_irrefl.
  - reflexivity.
  - exfalso. revert H. apply Qlt_irrefl.
Qed.

Lemma score_gt_trans a b c :
  score.Score_gt a b = true -> score.Score_gt b c = true -> score.Score_gt a c = true.
Proof.
  unfold score.Score_gt.
  destruct (Qcompare_spec (score.value a) (score.value b)) as [Hab|Hab|Hab];
    destruct (Qcompare_spec (score.value b) (score.value c)) as [Hbc|Hbc|Hbc];
    destruct (Qcompare_spec (score.value a) (score.value c)) as [Hac|Hac|Hac];
    intros H1 H2; try discriminate; try reflexivity;
    try (exfalso; lra).
  apply Z.ltb_lt in H1, H2. apply Z.ltb_lt. lia.
Qed.

(** ** The overloads evaluated *)

Import score Scenario.

(** C2, at a failing input.  Model 0 has the four inliers 0..3; with
    multiplier 1 and an estimator that needs two points the first sample is
    rows 0 and 1, on which the estimator fails, and the second is rows 1
    and 2, on which it succeeds with a better model.  The multi-match
    overload returns at the failure, after one body, and keeps model 0; the
    single-match overload goes on, finds model 1 in the second body and
    runs all three. *)
Theorem multi_match_returns_on_estimator_failure :
  let m := multi rotating_sampler (optimizer 3 1) (estimator 2 2) [] 0 (score_of 0) in
  let s := single rotating_sampler (optimizer 3 1) (estimator 2 2) [] 0 (score_of 0) in
  snd m = [Build_IterationRecord 0 4 2 (EstimatorFailed false)] /\
  estimatedModel (fst m) = 0 /\
  snd s = [Build_IterationRecord 0 4 2 (EstimatorFailed false);
           Build_IterationRecord 1 4 2 (Rescored false 1);
           Build_IterationRecord 2 5 2 (EstimatorFailed false)] /\
  estimatedModel (fst s) = 1.
Proof. vm_compute. repeat split. Qed.

(** C4, at a failing input.  Model -1 has no inlier.  With the
    constructor's 50 iterations and multiplier 7 and an estimator that needs
    two points, the minimum of 14 and of the number of inliers less one is
    -1, below the floor 2, so that the loop should stop at once; each of the
    50 bodies computes the sample size 14 instead and asks the sampler for
    14 indices out of none. *)
Theorem empty_inliers_loop_keeps_sampling :
  Z.min (7 * 2) (size (inliers_of (-1)) - 1) < 2 /\
  snd (multi rotating_sampler NestedRANSACOptimizer_new (estimator 2 2) [] (-1) (score_of (-1)))
    = map (fun i => Build_IterationRecord (Z.of_nat i) 0 14 SampleRefused) (seq 0 50) /\
  snd (single rotating_sampler NestedRANSACOptimizer_new (estimator 2 2) [] (-1) (score_of (-1)))
    = map (fun i => Build_IterationRecord (Z.of_nat i) 0 14 SampleRefused) (seq 0 50).
Proof. vm_compute. repeat split. Qed.

(** C1 as stated fails: the returned score is below an incoming score
    that is higher than what rescoring the model gives. *)
Lemma run_score_below_incoming :
  let returned :=
    estimatedScore (fst (multi rotating_sampler (optimizer 3 1) (estimator 2 2) [] 0 stale)) in
  Score_gt stale returned = true /\ ~ Score_ge Score_gt returned stale.
Proof.
  vm_compute. split; [reflexivity|].
  intros [H | H]; discriminate H.
Qed.

(** C3 as stated fails: with an input inlier set that is empty and a
    rescored one too small for the estimator (four inliers, floor four),
    the outputs are the model with the rescored score and inliers, not the
    incoming score and inlier set. *)
Lemma run_too_small_returns_rescored :
  let kInliers_ : list (Z * Z) := [] in
  let out :=
    outputs (fst (multi rotating_sampler (optimizer 3 1) (estimator 4 4) kInliers_ 0 stale)) in
  out = (0, score_of 0, [(0, 0); (1, 1); (2, 2); (3, 3)]) /\
  out <> (0, stale, kInliers_) /\ snd (fst out) <> stale /\ snd out <> kInliers_.
Proof.
  vm_compute. split; [reflexivity|]. repeat split; intros H; discriminate H.
Qed.

(** C9 as stated fails in the single-match overload: with an estimator
    whose minimal sample size is 2 and whose non-minimal sample size is 4,
    and no inlier, every body computes the sample size [7 * 2 = 14], the
    multiplier times [sampleSize()], not [7 * 4 = 28], the multiplier times
    the non-minimal sample size.  And with a multiplier of 0 the sample size
    computed on the empty inlier set is 0, below the floor: the first body
    breaks. *)
Lemma empty_inliers_single_uses_sampleSize :
  snd (rescore_single points (estimator 2 4) scoring (-1) []) = [] /\
  sampleSizeMultiplier NestedRANSACOptimizer_new * nonMinimalSampleSize (estimator 2 4) = 28 /\
  snd (single rotating_sampler NestedRANSACOptimizer_new (estimator 2 4) [] (-1) stale)
    = map (fun i => Build_IterationRecord (Z.of_nat i) 0 14 SampleRefused) (seq 0 50) /\
  snd (multi rotating_sampler (optimizer 50 0) (estimator 2 2) [] (-1) stale)
    = [Build_IterationRecord 0 0 0 TooSmall].
Proof. vm_compute. repeat split. Qed.

(** ** The theorems applied to the collaborators above *)

(** The score of the spec is a strict order, and on model 0, called with the
    score of model 0, both overloads return a score not below the rescored
    one and hence not below the incoming one. *)
Lemma run_score_not_below_rescored_witness :
  (forall a b c, Score_gt a b = true -> Score_gt b c = true -> Score_gt a c = true) /\
  (forall a, Score_gt a a = false) /\
  Score_ge Score_gt (score_of 0) (score_of 0) /\
  (Score_ge Score_gt
     (estimatedScore
        (fst (multi rotating_sampler (optimizer 3 1) (estimator 2 2) [] 0 (score_of 0))))
     (score_of 0) /\
   Score_gt (score_of 0)
     (estimatedScore
        (fst (multi rotating_sampler (optimizer 3 1) (estimator 2 2) [] 0 (score_of 0))))
     = false) /\
  Score_ge Score_gt
    (estimatedScore
       (fst (single rotating_sampler (optimizer 3 1) (estimator 2 2) [] 0 (score_of 0))))
    (score_of 0).
Proof.
  assert (H0 : Score_ge Score_gt (score_of 0) (score_of 0)) by (left; reflexivity).
  pose proof (run_score_not_below_rescored 0%Q Score_gt rotating_sampler (optimizer 3 1)
                points points [] [] points (estimator 2 2) scoring 0
                score_gt_trans score_gt_irrefl [] [] (score_of 0) [] [])
    as [(HM1 & HM2 & _) (_ & _ & HS3)].
  split; [exact score_gt_trans|]. split; [exact score_gt_irrefl|].
  split; [exact H0|]. split; [exact (conj HM1 HM2) | exact (HS3 H0)].
Defined.

(** The rotating sampler keeps the contract of the spec. *)
Lemma rotating_sampler_refuses : sampler_refuses_oversized rotating_sampler.
Proof.
  intros st pool k Hlt. simpl. apply Z.ltb_lt in Hlt. now rewrite Hlt.
Defined.

(** Four inliers and a floor of four: too small, in the multi-match overload;
    no inlier, a floor of two and the rotating sampler, in the single-match
    one. *)
Lemma run_too_small_keeps_rescored_witness :
  1 <= size (inliers_of 0) <= 4 /\
  outputs (fst (multi rotating_sampler (optimizer 3 1) (estimator 4 4) [] 0 stale))
    = (0, score_of 0, map (fun i => (i, i)) (inliers_of 0)) /\
  inliers_of (-1) = [] /\
  sampler_refuses_oversized rotating_sampler /\
  1 <= sampleSize (estimator 2 2) /\
  outputs (fst (single rotating_sampler (optimizer 3 7) (estimator 2 2) [] (-1) stale))
    = (-1, score_of (-1), inliers_of (-1)).
Proof.
  assert (H : 1 <= size (inliers_of 0) <= 4) by (vm_compute; split; discriminate).
  assert (H1 : 1 <= 2) by discriminate.
  split; [exact H|]. split.
  - exact (proj1 (proj1 (proj1
             (run_too_small_keeps_rescored 0%Q Score_gt rotating_sampler (optimizer 3 1)
                points points [] [] points (estimator 4 4) scoring 0 [] [] stale [] [])) H)).
  - split; [reflexivity|]. split; [exact rotating_sampler_refuses|]. split; [exact H1|].
    exact (proj2 (proj2
             (run_too_small_keeps_rescored 0%Q Score_gt rotating_sampler (optimizer 3 7)
                points points [] [] points (estimator 2 2) scoring (-1) [] [] stale [] []))
             eq_refl rotating_sampler_refuses H1).
Defined.


(** Model -1 has no inlier: the subtraction wraps, in both overloads. *)
Lemma empty_inliers_wrap_around_witness :
  snd (rescore_multi points points [] [] (estimator 2 2) scoring (-1) []) = [] /\
  snd (rescore_single points (estimator 2 2) scoring (-1) []) = [] /\
  samplerState (enter_multi careless_sampler points points [] [] (estimator 2 2) scoring
                            [] (-1) stale [])
    = initialize careless_sampler (sampler_new careless_sampler) (2 ^ 64 - 1) /\
  sample_size (kNonMinimalSampleSize_single NestedRANSACOptimizer_new (estimator 2 2))
              (size (estimatedInliers
                       (enter_single careless_sampler points (estimator 2 2) scoring
                                     [] (-1) stale [])))
    = kNonMinimalSampleSize_single NestedRANSACOptimizer_new (estimator 2 2).
Proof.
  pose proof (empty_inliers_wrap_around 0%Q Score_gt careless_sampler
                NestedRANSACOptimizer_new points points [] [] points (estimator 2 2)
                scoring (-1) [] [] stale [] []) as [HM HS].
  split; [reflexivity|]. split; [reflexivity|].
  split; [exact (proj1 (proj2 (HM eq_refl))) | exact (proj1 (proj2 (proj2 (HS eq_refl))))].
Defined.

(** With a floor of two no body copies all inliers, and every sample of the
    rotating sampler, which refuses oversized draws, is smaller than the
    inlier set. *)
Lemma copy_branch_unreachable_witness :
  1 <= nonMinimalSampleSize (estimator 2 2) /\
  1 <= sampleSize (estimator 2 2) /\
  sampler_refuses_oversized rotating_sampler /\
  Forall (fun r => copied_all (step r) = false)
         (snd (multi rotating_sampler (optimizer 3 1) (estimator 2 2) [] 0 stale)) /\
  Forall (fun r => drew (step r) = true -> currentSampleSize r < poolSize r)
         (snd (single rotating_sampler (optimizer 3 1) (estimator 2 2) [] 0 stale)).
Proof.
  assert (H1 : 1 <= 2) by discriminate.
  pose proof rotating_sampler_refuses as Href.
  pose proof (copy_branch_unreachable 0%Q Score_gt rotating_sampler (optimizer 3 1)
                points points [] [] points (estimator 2 2) scoring 0 [] [] stale [] [])
    as [HM HS].
  split; [exact H1|]. split; [exact H1|]. split; [exact Href|]. split.
  - eapply Forall_impl; [|exact (HM H1)]. intros r Hr. exact (proj1 Hr).
  - eapply Forall_impl; [|exact (HS H1)]. intros r Hr. exact (proj2 (proj2 Hr) Href).
Defined.

(** ** The further theorems applied to the collaborators above *)

(** On model 0 the multi-match overload returns its input and the
    single-match overload a strictly better model. *)
Lemma run_changes_only_by_improving_witness :
  (forall a b c, Score_gt a b = true -> Score_gt b c = true -> Score_gt a c = true) /\
  (outputs (fst (multi rotating_sampler (optimizer 3 1) (estimator 2 2) [] 0 stale))
     = (0, score_of 0, map (fun i => (i, i)) (inliers_of 0)) \/
   Score_gt (estimatedScore
               (fst (multi rotating_sampler (optimizer 3 1) (estimator 2 2) [] 0 stale)))
            (score_of 0) = true) /\
  (outputs (fst (single rotating_sampler (optimizer 3 1) (estimator 2 2) [] 0 stale))
     = (0, score_of 0, inliers_of 0) \/
   Score_gt (estimatedScore
               (fst (single rotating_sampler (optimizer 3 1) (estimator 2 2) [] 0 stale)))
            (score_of 0) = true).
Proof.
  split; [exact score_gt_trans|].
  exact (run_changes_only_by_improving 0%Q Score_gt rotating_sampler (optimizer 3 1)
           points points [] [] points (estimator 2 2) scoring 0
           score_gt_trans [] [] stale [] []).
Defined.

(** Candidates 1, 0 and 2 against model 0: none of them beats what is left. *)
Lemma candidates_leave_the_maximum_witness :
  (forall a b c, Score_gt a b = true -> Score_gt b c = true -> Score_gt a c = true) /\
  (forall a, Score_gt a a = false) /\
  Forall (fun m =>
            Score_gt (fst (rescore_single points (estimator 2 2) scoring m []))
                     (estimatedScore
                        (fold_left (consider Score_gt rotating_sampler
                                             (rescore_single points (estimator 2 2) scoring))
                                   [1; 0; 2]
                                   {| estimatedModel := 0; estimatedScore := score_of 0;
                                      estimatedInliers := inliers_of 0;
                                      samplerState := 3 |})) = false)
         [1; 0; 2].
Proof.
  split; [exact score_gt_trans|]. split; [exact score_gt_irrefl|].
  exact (proj1 (proj2
           (candidates_leave_the_maximum Score_gt rotating_sampler
              score_gt_trans score_gt_irrefl
              (rescore_single points (estimator 2 2) scoring) [1; 0; 2]
              {| estimatedModel := 0; estimatedScore := score_of 0;
                 estimatedInliers := inliers_of 0; samplerState := 3 |}))).
Defined.

(** The three bodies of the single-match run on model 0 start with four or
    five inliers and compute the minimum. *)
Lemma run_sample_size_on_inliers_witness :
  Forall (fun r => 1 <= poolSize r <= 2 ^ 64)
         (snd (single rotating_sampler (optimizer 3 1) (estimator 2 2) [] 0 stale)) /\
  Forall (fun r =>
            currentSampleSize r =
              Z.min (kNonMinimalSampleSize_single (optimizer 3 1) (estimator 2 2))
                    (poolSize r - 1))
         (snd (single rotating_sampler (optimizer 3 1) (estimator 2 2) [] 0 stale)).
Proof.
  assert (HR : Forall (fun r => 1 <= poolSize r <= 2 ^ 64)
                 (snd (single rotating_sampler (optimizer 3 1) (estimator 2 2) [] 0 stale))).
  { assert (E : snd (single rotating_sampler (optimizer 3 1) (estimator 2 2) [] 0 stale)
                = [Build_IterationRecord 0 4 2 (EstimatorFailed false);
                   Build_IterationRecord 1 4 2 (Rescored false 1);
                   Build_IterationRecord 2 5 2 (EstimatorFailed false)])
      by (vm_compute; reflexivity).
    rewrite E. repeat constructor; cbn [poolSize]; lia. }
  split; [exact HR|].
  pose proof (proj2 (run_sample_size_on_inliers 0%Q Score_gt rotating_sampler
                       (optimizer 3 1) points points [] [] points (estimator 2 2)
                       scoring 0 [] [] stale [] [])) as HT.
  rewrite Forall_forall in HR, HT. apply Forall_forall. intros r Hr.
  exact (proj1 (HT r Hr) (HR r Hr)).
Defined.

(** Model -1 has no inlier: fifty refused bodies with the constructor's
    settings. *)
Lemma run_on_empty_inliers_spins_witness :
  sampler_refuses_oversized rotating_sampler /\
  snd (rescore_multi points points [] [] (estimator 2 2) scoring (-1) []) = [] /\
  1 <= nonMinimalSampleSize (estimator 2 2)
    <= kNonMinimalSampleSize_multi NestedRANSACOptimizer_new (estimator 2 2) /\
  length (snd (multi rotating_sampler NestedRANSACOptimizer_new (estimator 2 2)
                     [] (-1) stale)) = 50%nat.
Proof.
  assert (Hf : 1 <= nonMinimalSampleSize (estimator 2 2)
               <= kNonMinimalSampleSize_multi NestedRANSACOptimizer_new (estimator 2 2)).
  { vm_compute. split; intros H; discriminate H. }
  split; [exact rotating_sampler_refuses|]. split; [reflexivity|]. split; [exact Hf|].
  exact (proj1 (proj1 (run_on_empty_inliers_spins 0%Q Score_gt rotating_sampler
                         NestedRANSACOptimizer_new points points [] [] points
                         (estimator 2 2) scoring (-1) [] [] stale [] []
                         rotating_sampler_refuses) eq_refl Hf)).
Defined.

(** With the multiplier set to zero model 0 comes back as it is. *)
Lemma run_with_zero_multiplier_witness :
  1 <= nonMinimalSampleSize (estimator 2 2) /\
  outputs (fst (multi rotating_sampler (setSampleSizeMultiplier (optimizer 3 1) 0)
                      (estimator 2 2) [] 0 stale))
    = (0, score_of 0, map (fun i => (i, i)) (inliers_of 0)).
Proof.
  assert (H1 : 1 <= 2) by discriminate.
  split; [exact H1|].
  exact (proj1 (proj1 (run_with_zero_multiplier 0%Q Score_gt rotating_sampler
                         points points [] [] points (estimator 2 2) scoring
                         (optimizer 3 1) [] [] 0 stale [] []) H1)).
Defined.

(** A second single-match call on the model the first one returned. *)
Lemma run_again_keeps_the_score_witness :
  (forall a b c, Score_gt a b = true -> Score_gt b c = true -> Score_gt a c = true) /\
  (forall a, Score_gt a a = false) /\
  Score_ge Score_gt
    (estimatedScore
       (fst (single rotating_sampler (optimizer 5 7) (estimator 2 2) []
               (estimatedModel
                  (fst (single rotating_sampler (optimizer 3 1) (estimator 2 2) [] 0 stale)))
               stale)))
    (estimatedScore
       (fst (single rotating_sampler (optimizer 3 1) (estimator 2 2) [] 0 stale))).
Proof.
  split; [exact score_gt_trans|]. split; [exact score_gt_irrefl|].
  exact (proj1 (proj2 (run_again_keeps_the_score 0%Q Score_gt rotating_sampler
                         points points [] [] points (estimator 2 2) scoring
                         score_gt_trans score_gt_irrefl (optimizer 3 1) (optimizer 5 7)
                         [] [] [] [] 0 stale stale))).
Defined.

(** Indices 2 and 0 into a vector of three. *)
Lemma sample_consists_of_inliers_witness :
  (forall j, (j < Z.to_nat 2)%nat -> 0 <= nth j [2; 0] 0 < size [10; 20; 30]) /\
  Forall (fun x => In x [10; 20; 30]) (gather 0 [10; 20; 30] [2; 0] 2).
Proof.
  assert (H : forall j, (j < Z.to_nat 2)%nat -> 0 <= nth j [2; 0] 0 < size [10; 20; 30]).
  { intros [|[|j]] Hj; simpl in *; try lia.
    - split; [discriminate | reflexivity].
    - split; [discriminate | reflexivity]. }
  split; [exact H|].
  exact (proj2 (proj2 (sample_consists_of_inliers 0 [10; 20; 30] [2; 0] 2)) H).
Defined.

(** A multiplier of [2^63] with a sample size of two: the product wraps to
    zero, below the floor. *)
Lemma run_breaks_at_once_below_floor_witness :
  kNonMinimalSampleSize_single (optimizer 3 (2 ^ 63)) (estimator 2 2)
    < sampleSize (estimator 2 2) /\
  outputs (fst (single rotating_sampler (optimizer 3 (2 ^ 63)) (estimator 2 2) [] 0 stale))
    = (0, score_of 0, inliers_of 0).
Proof.
  assert (H : kNonMinimalSampleSize_single (optimizer 3 (2 ^ 63)) (estimator 2 2)
              < sampleSize (estimator 2 2)) by reflexivity.
  split; [exact H|].
  exact (proj1 (proj2 (run_breaks_at_once_below_floor 0%Q Score_gt rotating_sampler
                         (optimizer 3 (2 ^ 63)) points points [] [] points
                         (estimator 2 2) scoring 0 [] [] stale [] []) H)).
Defined.
